(** * SERP similarity checker: the analysis core of [serp-similarity.py]

    A shallow embedding of [get_domain] and [analyze_serp_similarity]
    together with the part of [urllib.parse] they rely on, followed by the
    properties of the similarity report.

    Conventions of the embedding.
    - A Python [str] is a [string].  The program and the part of
      [urllib.parse] embedded here test and cut a string at ASCII
      characters only, so the embedding is the same whether the [string]
      holds the code points of the [str] (up to 255) or its UTF-8 bytes;
      the one count of characters, the 150 of a snippet in
      [process_results], is that of a text of one-byte characters.
    - What lies outside the program and outside the embedded part of
      [urlsplit] is a parameter, the record [Library]:
      [unicodedata.normalize] and the validation of a bracketed host.
    - A Python [dict] is a [gmap], a [set] is a [gset]; the iteration order
      of either is not observable in the report's contents.
    - Python integers are [Z].
    - The two similarity ratios are Python floats.  The embedding keeps the
      exact rational of which the float is the rounding; the bounds 0 and
      100 and the value 100 stated below are exactly representable and
      rounding to nearest is monotone, so they carry over to the floats.
    - A raised exception is the left summand of a sum type.
    - An input is a response in the provider's format: ['organic'], when
      present, holds a list, and every result has a ['link'].  On any
      other input the program raises [TypeError] or [KeyError]; such
      inputs are outside the embedding. *)

From Stdlib Require Import Ascii String QArith Qabs.
From stdpp Require Import gmap strings list fin_maps fin_sets.

Local Open Scope string_scope.

(** ** Python string primitives used by the program *)

Module Str.

Definition eqb_ascii (a b : ascii) : bool := Ascii.eqb a b.

(** [c in s] for a one-character [c]. *)
Fixpoint contains (c : ascii) (s : string) : bool :=
  match s with
  | EmptyString => false
  | String a rest => eqb_ascii a c || contains c rest
  end.

(** [s.find(c)] for a one-character [c]; [None] stands for [-1]. *)
Fixpoint find (c : ascii) (s : string) : option nat :=
  match s with
  | EmptyString => None
  | String a rest =>
      if eqb_ascii a c then Some 0%nat else S <$> find c rest
  end.

(** [s[:n]] *)
Fixpoint take (n : nat) (s : string) : string :=
  match n, s with
  | S k, String a rest => String a (take k rest)
  | _, _ => EmptyString
  end.

(** [s[n:]] *)
Fixpoint drop (n : nat) (s : string) : string :=
  match n, s with
  | S k, String _ rest => drop k rest
  | _, _ => s
  end.

(** [s.find(c, start)]: the first index at or after [start]. *)
Definition find_from (c : ascii) (start : nat) (s : string) : option nat :=
  (λ i, (start + i)%nat) <$> find c (drop start s).

Fixpoint all (p : ascii → bool) (s : string) : bool :=
  match s with
  | EmptyString => true
  | String a rest => p a && all p rest
  end.

Fixpoint filter (p : ascii → bool) (s : string) : string :=
  match s with
  | EmptyString => EmptyString
  | String a rest => if p a then String a (filter p rest) else filter p rest
  end.

(** [s.lstrip(chars)], the set [chars] given by its membership test. *)
Fixpoint lstrip (p : ascii → bool) (s : string) : string :=
  match s with
  | EmptyString => EmptyString
  | String a rest => if p a then lstrip p rest else s
  end.

(** [s.startswith(p)] *)
Fixpoint startswith (p s : string) : bool :=
  match p, s with
  | EmptyString, _ => true
  | String a p', String b s' => eqb_ascii a b && startswith p' s'
  | String _ _, EmptyString => false
  end.

Definition in_range (lo hi : nat) (c : ascii) : bool :=
  (lo <=? nat_of_ascii c)%nat && (nat_of_ascii c <=? hi)%nat.

Definition is_upper (c : ascii) : bool := in_range 65 90 c.
Definition is_lower (c : ascii) : bool := in_range 97 122 c.
Definition is_digit (c : ascii) : bool := in_range 48 57 c.

(** [c.isascii() and c.isalpha()] *)
Definition is_ascii_alpha (c : ascii) : bool := is_upper c || is_lower c.

Definition lower_ascii (c : ascii) : ascii :=
  if is_upper c then ascii_of_nat (nat_of_ascii c + 32) else c.

(** [s.lower()] on a string of ASCII characters *)
Fixpoint lower (s : string) : string :=
  match s with
  | EmptyString => EmptyString
  | String a rest => String (lower_ascii a) (lower rest)
  end.

(** [s.replace(old, new)] for a non-empty [old]: occurrences are replaced
    from left to right and do not overlap.  [skip] counts the characters
    of an occurrence already replaced that are still to be passed over. *)
Fixpoint replace_from (old new : string) (skip : nat) (s : string) : string :=
  match s with
  | EmptyString => EmptyString
  | String a rest =>
      match skip with
      | S k => replace_from old new k rest
      | O =>
          if startswith old s
          then new ++ replace_from old new (String.length old - 1) rest
          else String a (replace_from old new 0 rest)
      end
  end.

Definition replace (old new s : string) : string := replace_from old new 0 s.

End Str.

(** ** [urllib.parse]: the part of [urlsplit] that decides [netloc] *)

Inductive exn : Type :=
  | ValueError
  | ZeroDivisionError.

#[global] Instance exn_eq_dec : EqDecision exn.
Proof. solve_decision. Defined.

#[global] Instance exn_bind : MBind (sum exn) :=
  λ A B f x, match x with inl e => inl e | inr a => f a end.

(** The components of a parse result the program can observe: [netloc] is
    the one it reads; [rest] is the text after the network location, from
    which [urlsplit] and [urlparse] cut path, parameters, query and
    fragment. *)
Record ParseResult : Type := mkParseResult {
  scheme : string;
  netloc : string;
  rest : string
}.

Definition scheme_chars (c : ascii) : bool :=
  Str.is_ascii_alpha c || Str.is_digit c || Str.contains c "+-.".

(** Code points 0..32. *)
Definition _WHATWG_C0_CONTROL_OR_SPACE (c : ascii) : bool :=
  (nat_of_ascii c <=? 32)%nat.

(** Tab, carriage return, line feed. *)
Definition _UNSAFE_URL_BYTES_TO_REMOVE (c : ascii) : bool :=
  (nat_of_ascii c =? 9)%nat || (nat_of_ascii c =? 13)%nat
  || (nat_of_ascii c =? 10)%nat.

(** The scheme block of [urlsplit]: with [i = url.find(':')], a scheme is
    cut off when [i > 0], [url[0]] is an ASCII letter and [url[:i]] consists
    of [scheme_chars]; otherwise the scheme is empty and [url] unchanged. *)
Definition split_scheme (url : string) : string * string :=
  match Str.find ":" url, url with
  | Some (S i'), String c0 _ =>
      let i := S i' in
      if Str.is_ascii_alpha c0 && Str.all scheme_chars (Str.take i url)
      then (Str.lower (Str.take i url), Str.drop (i + 1) url)
      else ("", url)
  | _, _ => ("", url)
  end.

Definition _splitnetloc (url : string) (start : nat) : string * string :=
  let delim :=
    foldl (λ delim c,
             match Str.find_from c start url with
             | Some wdelim => Nat.min delim wdelim
             | None => delim
             end)
          (String.length url) ["/"; "?"; "#"]%char in
  (Str.take (delim - start) (Str.drop start url), Str.drop delim url).

(** What [urlsplit] calls and the embedding takes as given.
    [_check_bracketed_netloc] validates an IP literal in brackets with the
    [ipaddress] and [re] modules: [true] when it returns, [false] when it
    raises [ValueError].  [normalize_NFKC s] is
    [unicodedata.normalize('NFKC', s)]. *)
Record Library : Type := mkLibrary {
  _check_bracketed_netloc : string → bool;
  normalize_NFKC : string → string
}.

(** [s.isascii()] *)
Definition isascii (s : string) : bool :=
  Str.all (λ c, (nat_of_ascii c <? 128)%nat) s.

(** [_checknetloc(netloc)]: an empty or ASCII network location passes at
    once; any other one is normalised without its ["@:#?"] and refused when
    the normalisation brings in one of ["/?#@:"]. *)
Definition _checknetloc (lib : Library) (netloc : string) : exn + unit :=
  if String.eqb netloc "" || isascii netloc then inr ()
  else
    let n := Str.replace "@" "" netloc in
    let n := Str.replace ":" "" n in
    let n := Str.replace "#" "" n in
    let n := Str.replace "?" "" n in
    let netloc2 := normalize_NFKC lib n in
    if String.eqb n netloc2 then inr ()
    else if existsb (λ c, Str.contains c netloc2)
              ["/"; "?"; "#"; "@"; ":"]%char
    then inl ValueError
    else inr ().

(** ** Data model *)

(** One organic result of the search provider.  ['link'] is the key the
    analysis subscripts; ['title'] and ['snippet'] are optional and read by
    the presentation layer only. *)
Record SearchResult : Type := mkSearchResult {
  title : option string;
  link : string;
  snippet : option string
}.

(** [position_changes[domain]] *)
Record PositionChange : Type := mkPositionChange {
  pos1 : Z;
  pos2 : Z;
  diff : Z
}.

#[global] Instance PositionChange_eq_dec : EqDecision PositionChange.
Proof. solve_decision. Defined.

(** A value computed by numpy: a number or the not-a-number that [np.mean]
    gives for an empty list. *)
Inductive npfloat : Type :=
  | Finite (q : Q)
  | NaN.

(** The dictionary returned by [analyze_serp_similarity], one field per key. *)
Record Report : Type := mkReport {
  common_domains : gset string;
  common_urls : gset string;
  domain_similarity : Q;
  url_similarity : Q;
  position_differences : gmap string Z;
  avg_position_diff : npfloat;
  position_changes : gmap string PositionChange;
  domains1 : gmap string Z;
  domains2 : gmap string Z;
  total_results1 : Z;
  total_results2 : Z
}.

(** ** Python primitives on numbers and containers *)

(** [a / b] on integers *)
Definition true_div (a b : Z) : exn + Q :=
  if decide (b = 0%Z) then inl ZeroDivisionError
  else inr (inject_Z a / inject_Z b)%Q.

(** [len(d)] *)
Definition len `{Size C} (c : C) : Z := Z.of_nat (size c).

(** [enumerate(l)] *)
Definition enumerate {A} (l : list A) : list (nat * A) := imap pair l.

(** [list(d.values())] *)
Definition values {V} (d : gmap string V) : list V := (map_to_list d).*2.

Definition sum_Z (xs : list Z) : Z := foldr Z.add 0%Z xs.

(** [np.mean(xs)] of a list of integers *)
Definition np_mean (xs : list Z) : npfloat :=
  match xs with
  | [] => NaN
  | _ :: _ => Finite (inject_Z (sum_Z xs) / inject_Z (Z.of_nat (length xs)))%Q
  end.

(** [{key(result): i+1 for i, result in enumerate(organic)}]: the entries
    are stored in list order, a later one replacing an earlier one with the
    same key. *)
Definition position_index (key : SearchResult → string)
    (organic : list SearchResult) : gmap string Z :=
  foldl (λ d '(i, result), <[key result := (Z.of_nat i + 1)%Z]> d)
        ∅ (enumerate organic).

(** A response of the search provider is a dictionary; of its values the
    analysis reads the one under ['organic'], a list of results, and the
    embedding types every value as such a list.
    [organic results] is [results.get('organic', [])]. *)
Definition organic (results : gmap string (list SearchResult))
    : list SearchResult :=
  default [] (results !! "organic").

Section Analysis.

Variable lib : Library.

(** The network location block of [urlsplit]: after ["//"] the location is
    cut off and its brackets are checked. *)
Definition split_netloc (url : string) : exn + string * string :=
  if String.eqb (Str.take 2 url) "//" then
    let '(netloc, url) := _splitnetloc url 2 in
    let has_open := Str.contains "[" netloc in
    let has_close := Str.contains "]" netloc in
    if (has_open && negb has_close) || (has_close && negb has_open)
    then inl ValueError
    else if has_open && has_close
            && negb (_check_bracketed_netloc lib netloc)
    then inl ValueError
    else inr (netloc, url)
  else inr ("", url).

Definition urlsplit (url0 : string) : exn + ParseResult :=
  let url := Str.lstrip _WHATWG_C0_CONTROL_OR_SPACE url0 in
  let url := Str.filter (λ c, negb (_UNSAFE_URL_BYTES_TO_REMOVE c)) url in
  let '(scheme, url) := split_scheme url in
  '(netloc, url) ← split_netloc url;
  _ ← _checknetloc lib netloc;
  inr (mkParseResult scheme netloc url).

(** [urlparse] further splits [;parameters] off the path, which leaves
    scheme and network location as [urlsplit] found them. *)
Definition urlparse (url : string) : exn + ParseResult := urlsplit url.

(** ** [get_domain] *)

Definition get_domain (url : string) : string :=
  match urlparse url with
  | inr parsed => Str.replace "www." "" (netloc parsed)
  | inl _ => url
  end.

(** ** [analyze_serp_similarity] *)

Definition domain_index (organic : list SearchResult) : gmap string Z :=
  position_index (λ result, get_domain (link result)) organic.

Definition url_index (organic : list SearchResult) : gmap string Z :=
  position_index link organic.

(** [d[k]] is written [d !!! k]; every subscript below is at a key taken
    from the dictionary's own key set (lemma [common_lookup]). *)
Definition analyze_serp_similarity
    (results1 results2 : gmap string (list SearchResult)) : exn + Report :=
  let organic1 := organic results1 in
  let organic2 := organic results2 in
  let domains1 := domain_index organic1 in
  let domains2 := domain_index organic2 in
  let urls1 := url_index organic1 in
  let urls2 := url_index organic2 in
  let common_domains : gset string := dom domains1 ∩ dom domains2 in
  let common_urls : gset string := dom urls1 ∩ dom urls2 in
  let position_differences : gmap string Z :=
    set_to_map
      (λ domain, (domain, Z.abs (domains1 !!! domain - domains2 !!! domain)))
      common_domains in
  ratio ← true_div (len common_domains) (Z.max (len domains1) (len domains2));
  let domain_similarity := (ratio * inject_Z 100)%Q in
  ratio ← true_div (len common_urls) (Z.max (len urls1) (len urls2));
  let url_similarity := (ratio * inject_Z 100)%Q in
  let avg_position_diff :=
    if decide (position_differences = ∅) then Finite 0
    else np_mean (values position_differences) in
  let position_changes : gmap string PositionChange :=
    set_to_map
      (λ domain,
         (domain,
          {| pos1 := domains1 !!! domain;
             pos2 := domains2 !!! domain;
             diff := domains2 !!! domain - domains1 !!! domain |}))
      (filter
         (λ domain, (Z.abs (domains1 !!! domain - domains2 !!! domain) > 2)%Z)
         common_domains) in
  inr {| common_domains := common_domains;
         common_urls := common_urls;
         domain_similarity := domain_similarity;
         url_similarity := url_similarity;
         position_differences := position_differences;
         avg_position_diff := avg_position_diff;
         position_changes := position_changes;
         domains1 := domains1;
         domains2 := domains2;
         total_results1 := Z.of_nat (length organic1);
         total_results2 := Z.of_nat (length organic2) |}.

End Analysis.


(** ** Positions of a key in a ranked list *)

(** [p] is the 1-based position of the last entry of [l] whose key is [k]. *)
Definition is_last_position {A} (key : A → string) (l : list A)
    (k : string) (p : Z) : Prop :=
  ∃ j x, p = (Z.of_nat j + 1)%Z ∧ l !! j = Some x ∧ key x = k ∧
         ∀ j' x', (j < j')%nat → l !! j' = Some x' → key x' ≠ k.

(** [p] is the 1-based position of the first entry of [l] whose key is [k]. *)
Definition is_first_position {A} (key : A → string) (l : list A)
    (k : string) (p : Z) : Prop :=
  ∃ j x, p = (Z.of_nat j + 1)%Z ∧ l !! j = Some x ∧ key x = k ∧
         ∀ j' x', (j' < j)%nat → l !! j' = Some x' → key x' ≠ k.

(** The 0-based index of the last entry with key [k], computed. *)
Fixpoint last_index {A} (key : A → string) (k : string) (l : list A)
    : option nat :=
  match l with
  | [] => None
  | x :: l' =>
      match last_index key k l' with
      | Some j => Some (S j)
      | None => if decide (key x = k) then Some 0%nat else None
      end
  end.

(** ** URLs of the form scheme://authority *)

(** [sch] is a scheme as [urlsplit] recognises one. *)
Definition is_scheme (sch : string) : bool :=
  match sch with
  | String c0 _ => Str.is_ascii_alpha c0 && Str.all scheme_chars sch
  | EmptyString => false
  end.

(** [auth] consists of ASCII characters, none of them a delimiter or a
    bracket. *)
Definition plain_authority (auth : string) : bool :=
  Str.all (λ c, negb (Str.contains c "/?#[]")
                && (nat_of_ascii c <? 128)%nat) auth.

(** [s] without the tabs, carriage returns and line feeds that [urlsplit]
    deletes from a URL. *)
Definition remove_unsafe (s : string) : string :=
  Str.filter (λ c, negb (_UNSAFE_URL_BYTES_TO_REMOVE c)) s.

(** [tail] is empty or begins a path, a query or a fragment. *)
Definition starts_path (tail : string) : bool :=
  match tail with
  | EmptyString => true
  | String c _ => Str.contains c "/?#"
  end.

(** [s] without a leading ["www."]. *)
Definition strip_www (s : string) : string :=
  if Str.startswith "www." s then Str.drop 4 s else s.

(** [p in s] for a string [p]. *)
Fixpoint occurs (p s : string) : bool :=
  Str.startswith p s
  || match s with
     | EmptyString => false
     | String _ rest => occurs p rest
     end.

(** The host of an authority without brackets: what follows the user
    information, up to the last ["@"], and precedes the port, from the first
    [":"] on. *)
Fixpoint after_last (c : ascii) (s : string) : string :=
  match s with
  | EmptyString => EmptyString
  | String a rest =>
      if Str.contains c rest then after_last c rest
      else if Str.eqb_ascii a c then rest else s
  end.

Fixpoint before_first (c : ascii) (s : string) : string :=
  match s with
  | EmptyString => EmptyString
  | String a rest =>
      if Str.eqb_ascii a c then EmptyString else String a (before_first c rest)
  end.

Definition host_of (auth : string) : string :=
  before_first ":" (after_last "@" auth).

(** The domain in the words of the specification: the host without a
    leading ["www."], nothing else altered. *)
Definition normalized_host (auth : string) : string :=
  strip_www (host_of auth).

(** ** The tables of the dashboard *)

(** A row of the data frame built by [process_results], one field per
    column. *)
Record ResultRow : Type := mkResultRow {
  Position : Z;
  Title : string;
  Domain : string;
  URL : string;
  Status : string;
  Snippet : string
}.

(** A row of [changes_df]; the columns ['Domain'], ['Position in Query 1'],
    ['Position in Query 2'] and ['Change']. *)
Record ChangeRow : Type := mkChangeRow {
  Change_Domain : string;
  Position_in_Query_1 : Z;
  Position_in_Query_2 : Z;
  Change : Z
}.

Section Tables.

Variable lib : Library.

(** [process_results(results, other_domains)]: the rows of the data frame in
    order.  [other_domains] is a domain index of the other query, tested for
    its keys; a missing or empty snippet stays empty, any other one is cut
    to 150 characters and followed by three dots. *)
Definition process_results (results : gmap string (list SearchResult))
    (other_domains : gmap string Z) : list ResultRow :=
  (λ '(i, r),
     {| Position := Z.of_nat i + 1;
        Title := default "" (title r);
        Domain := get_domain lib (link r);
        URL := link r;
        Status :=
          if decide (get_domain lib (link r)
                     ∈ dom other_domains)
          then "Common" else "Unique";
        Snippet :=
          match snippet r with
          | Some s => if decide (s = "") then "" else Str.take 150 s ++ "..."
          | None => ""
          end |})
  <$> enumerate (organic results).

End Tables.

(** The style of a row of a results table: one entry per column. *)
Definition results_style (x : ResultRow) : list string :=
  replicate 6
    (if decide (Status x = "Common") then "background-color: #dcfce7" else "").

(** The row that [changes_df] holds for one item of [position_changes]. *)
Definition change_row (domain : string) (data : PositionChange) : ChangeRow :=
  {| Change_Domain := domain;
     Position_in_Query_1 := pos1 data;
     Position_in_Query_2 := pos2 data;
     Change := diff data |}.

(** The style of a row of the position changes table. *)
Definition changes_style (x : ChangeRow) : list string :=
  replicate 4
    (if decide (Change x > 0)%Z then "background-color: #fef9c3"
     else "background-color: #fee2e2").

(** ** Concrete inputs *)

Definition result_of_url (url : string) : SearchResult :=
  {| title := None; link := url; snippet := None |}.

Definition scenario_A : gmap string (list SearchResult) :=
  {[ "organic" := [result_of_url "https://a.com/1";
                   result_of_url "https://b.com/1"] ]}.

Definition scenario_B : gmap string (list SearchResult) :=
  {[ "organic" := [result_of_url "https://b.com/2";
                   result_of_url "https://a.com/1"] ]}.

(** The library whose bracket check lets every IP literal pass, as in the
    versions of [urllib.parse] that precede the check, and whose
    normalisation leaves a string as it is, as NFKC leaves ASCII text. *)
Definition no_bracket_check : Library :=
  {| _check_bracketed_netloc := λ _, true; normalize_NFKC := λ s, s |}.

(** A library that normalises the one compatibility character ["℀"]
    (U+2100, account of) as NFKC does, to ["a/c"], and leaves the rest of a
    string as it is. *)
Definition account_of_library : Library :=
  {| _check_bracketed_netloc := λ _, true;
     normalize_NFKC := Str.replace "℀" "a/c" |}.

Definition results_of (urls : list string) : gmap string (list SearchResult) :=
  {[ "organic" := result_of_url <$> urls ]}.

(** A domain and a URL that occur twice in one result list. *)
Definition repeated_A : gmap string (list SearchResult) :=
  results_of ["https://a.com/1"; "https://b.com/1"; "https://a.com/1"].

Definition repeated_B : gmap string (list SearchResult) :=
  results_of ["https://a.com/9"].

(** Four domains in opposite orders: a.com and d.com move by three places,
    b.com and c.com by one. *)
Definition reversed_A : gmap string (list SearchResult) :=
  results_of ["https://a.com/"; "https://b.com/"; "https://c.com/";
              "https://d.com/"].

Definition reversed_B : gmap string (list SearchResult) :=
  results_of ["https://d.com/"; "https://c.com/"; "https://b.com/";
              "https://a.com/"].

Definition reversed_report : Report :=
  Eval vm_compute in
    match analyze_serp_similarity no_bracket_check reversed_A reversed_B with
    | inr rep => rep
    | inl _ =>
        mkReport ∅ ∅ 0 0 ∅ NaN ∅ ∅ ∅ 0 0
    end.

(** Two results, as in the scenario above, analysed. *)
Definition scenario_report : Report :=
  Eval vm_compute in
    match analyze_serp_similarity no_bracket_check scenario_A scenario_B with
    | inr rep => rep
    | inl _ => mkReport ∅ ∅ 0 0 ∅ NaN ∅ ∅ ∅ 0 0
    end.

Definition repeated_report : Report :=
  Eval vm_compute in
    match analyze_serp_similarity no_bracket_check repeated_A repeated_B with
    | inr rep => rep
    | inl _ => mkReport ∅ ∅ 0 0 ∅ NaN ∅ ∅ ∅ 0 0
    end.

(** The links of [reversed_A] with titles and snippets, beside another key
    of the response. *)
Definition detailed_A : gmap string (list SearchResult) :=
  {[ "organic" :=
       [ {| title := Some "A"; link := "https://a.com/";
            snippet := Some "short" |};
         {| title := None; link := "https://b.com/"; snippet := Some "" |};
         {| title := Some "C"; link := "https://c.com/"; snippet := None |};
         {| title := Some "D"; link := "https://d.com/";
            snippet := Some "d" |} ];
     "peopleAlsoAsk" := [] ]}.

(** The first result of [detailed_A] and its row in the results table, the
    row of a.com in the table of [reversed_A], and the position change of
    a.com between [reversed_A] and [reversed_B]. *)
Definition detailed_result : SearchResult :=
  {| title := Some "A"; link := "https://a.com/"; snippet := Some "short" |}.

Definition detailed_row : ResultRow :=
  {| Position := 1; Title := "A"; Domain := "a.com";
     URL := "https://a.com/"; Status := "Unique"; Snippet := "short..." |}.

Definition reversed_row : ResultRow :=
  {| Position := 1; Title := ""; Domain := "a.com";
     URL := "https://a.com/"; Status := "Common"; Snippet := "" |}.

Definition reversed_change : PositionChange :=
  {| pos1 := 1; pos2 := 4; diff := 3 |}.

(** Results on domains that [reversed_A] does not have. *)
Definition disjoint_B : gmap string (list SearchResult) :=
  results_of ["https://x.org/"; "https://www.y.org/1"; "https://x.org/2"].

(** * Properties *)

(** ** Facts on the string primitives *)

Section StringFacts.

Implicit Types (s t p : string) (c a : ascii).

Lemma eqb_ascii_eq a c : Str.eqb_ascii a c = true ↔ a = c.
Proof. apply Ascii.eqb_eq. Qed.

Lemma app_String a s t : String a s ++ t = String a (s ++ t).
Proof. reflexivity. Qed.

Lemma app_empty t : "" ++ t = t.
Proof. reflexivity. Qed.

Lemma str_app_nil_r s : s ++ "" = s.
Proof. induction s as [|a s IH]; [done|by rewrite app_String, IH]. Qed.

Lemma filter_app f s t :
  Str.filter f (s ++ t) = Str.filter f s ++ Str.filter f t.
Proof.
  induction s as [|a s IH]; [done|]. rewrite app_String. simpl.
  destruct (f a); by rewrite IH.
Qed.

Lemma filter_all f s : Str.all f s = true → Str.filter f s = s.
Proof.
  induction s as [|a s IH]; simpl; [done|].
  intros [Ha Hs]%andb_true_iff. by rewrite Ha, IH.
Qed.

Lemma all_impl (f g : ascii → bool) s :
  (∀ a, f a = true → g a = true) → Str.all f s = true → Str.all g s = true.
Proof.
  intros Hfg. induction s as [|a s IH]; simpl; [done|].
  intros [Ha Hs]%andb_true_iff. by rewrite (Hfg _ Ha), IH.
Qed.

Lemma contains_all (f : ascii → bool) c s :
  Str.all f s = true → f c = false → Str.contains c s = false.
Proof.
  intros Hall Hc. induction s as [|a s IH]; simpl in *; [done|].
  apply andb_true_iff in Hall as [Ha Hs]. rewrite (IH Hs), orb_false_r.
  destruct (Str.eqb_ascii a c) eqn:E; [|done].
  apply eqb_ascii_eq in E as ->. congruence.
Qed.

Lemma find_app c s t :
  Str.contains c s = false →
  Str.find c (s ++ t) = (λ i, (String.length s + i)%nat) <$> Str.find c t.
Proof.
  induction s as [|a s IH]; [|rewrite app_String]; simpl.
  - intros _. rewrite app_empty. by destruct (Str.find c t).
  - intros [Ha Hs]%orb_false_iff. rewrite Ha, (IH Hs).
    by destruct (Str.find c t).
Qed.

Lemma take_app s t : Str.take (String.length s) (s ++ t) = s.
Proof.
  induction s as [|a s IH]; [by destruct t|].
  rewrite app_String. simpl. by rewrite IH.
Qed.

Lemma drop_app s t : Str.drop (String.length s) (s ++ t) = t.
Proof.
  induction s as [|a s IH]; [by destruct t|]. by rewrite app_String.
Qed.

Lemma take_all s : Str.take (String.length s) s = s.
Proof. by rewrite <-(str_app_nil_r s) at 2; rewrite take_app. Qed.

Lemma drop_all s : Str.drop (String.length s) s = "".
Proof. by rewrite <-(str_app_nil_r s) at 2; rewrite drop_app. Qed.

Lemma drop_app_succ s a t :
  Str.drop (String.length s + 1) (s ++ String a t) = t.
Proof.
  induction s as [|b s IH]; [done|]. by rewrite app_String.
Qed.

Lemma startswith_app p s : Str.startswith p (p ++ s) = true.
Proof.
  induction p as [|a p IH]; [done|]. rewrite app_String. simpl.
  rewrite IH, andb_true_r. by apply eqb_ascii_eq.
Qed.

Lemma startswith_split p s :
  Str.startswith p s = true → s = p ++ Str.drop (String.length p) s.
Proof.
  revert s. induction p as [|a p IH]; intros s; simpl; [by destruct s|].
  destruct s as [|b s]; [done|].
  intros [Hab Hp]%andb_true_iff. apply eqb_ascii_eq in Hab as ->.
  by rewrite app_String, <-(IH s Hp).
Qed.

(** *** [str.replace] *)

Lemma replace_from_skip old new k s :
  Str.replace_from old new k s = Str.replace old new (Str.drop k s).
Proof.
  unfold Str.replace. revert k.
  induction s as [|a s IH]; intros [|k]; simpl; auto.
Qed.

Lemma replace_absent old new s :
  occurs old s = false → Str.replace old new s = s.
Proof.
  unfold Str.replace. induction s as [|a s IH]; [done|].
  cbn [occurs Str.replace_from]. intros [Hhere Hrest]%orb_false_iff.
  by rewrite Hhere, (IH Hrest).
Qed.

Lemma replace_prefix o old new s :
  Str.replace (String o old) new (String o old ++ s)
  = new ++ Str.replace (String o old) new s.
Proof.
  unfold Str.replace at 1.
  rewrite app_String. cbn [Str.replace_from]. rewrite <-app_String.
  rewrite startswith_app, replace_from_skip.
  replace (String.length (String o old) - 1)%nat with (String.length old)
    by (simpl; lia).
  by rewrite drop_app.
Qed.

Lemma replace_www s :
  occurs "www." (strip_www s) = false →
  Str.replace "www." "" s = strip_www s.
Proof.
  unfold strip_www. destruct (Str.startswith "www." s) eqn:E.
  - intros Habsent. rewrite (startswith_split _ _ E) at 1.
    rewrite replace_prefix. simpl String.length.
    by rewrite (replace_absent _ _ _ Habsent).
  - apply replace_absent.
Qed.

End StringFacts.

(** *** Character classes *)

Ltac by_cases_on_char c :=
  destruct c as [[] [] [] [] [] [] [] []]; vm_compute; try done; auto.

Lemma alpha_not_stripped c :
  Str.is_ascii_alpha c = true → _WHATWG_C0_CONTROL_OR_SPACE c = false.
Proof. by_cases_on_char c. Qed.

Lemma scheme_char_kept c :
  scheme_chars c = true → negb (_UNSAFE_URL_BYTES_TO_REMOVE c) = true.
Proof. by_cases_on_char c. Qed.

Lemma colon_not_scheme_char : scheme_chars ":" = false.
Proof. reflexivity. Qed.

(** *** The scheme and the network location of [urlsplit] *)

Lemma split_scheme_app sch url :
  is_scheme sch = true →
  split_scheme (sch ++ String ":" url) = (Str.lower sch, url).
Proof.
  destruct sch as [|c0 s0]; [done|]. intros [Hc0 Hall]%andb_true_iff.
  unfold split_scheme.
  rewrite find_app by (by eapply contains_all, colon_not_scheme_char).
  cbn [Str.find Str.eqb_ascii Ascii.eqb Bool.eqb fmap option_fmap option_map].
  rewrite app_String. cbn [String.length Nat.add]. rewrite Nat.add_0_r.
  rewrite <-app_String.
  change (S (String.length s0)) with (String.length (String c0 s0)).
  rewrite take_app, Hc0, Hall. cbn [andb]. f_equal.
  apply (drop_app_succ (String c0 s0) ":" url).
Qed.

Lemma delimiter_not_in_authority auth c :
  plain_authority auth = true → Str.contains c "/?#" = true →
  Str.contains c auth = false.
Proof.
  intros Hauth Hc. eapply contains_all; [exact Hauth|]. simpl.
  apply andb_false_iff. left. apply negb_false_iff.
  simpl in Hc |- *. rewrite !orb_false_r in *.
  repeat (apply orb_true_iff in Hc as [->|Hc]; [by rewrite ?orb_true_r|]).
  by rewrite Hc, ?orb_true_r.
Qed.

Lemma bracket_not_in_authority auth :
  plain_authority auth = true →
  Str.contains "[" auth = false ∧ Str.contains "]" auth = false.
Proof. intros Hauth. split; by eapply contains_all. Qed.

Lemma str_length_app (s t : string) :
  String.length (s ++ t) = (String.length s + String.length t)%nat.
Proof.
  induction s as [|a s IH]; [done|]. rewrite app_String. simpl. by rewrite IH.
Qed.

Lemma splitnetloc_authority auth tail :
  plain_authority auth = true → starts_path tail = true →
  _splitnetloc (String "/" (String "/" (auth ++ tail))) 2 = (auth, tail).
Proof.
  intros Hauth Htail. unfold _splitnetloc.
  assert (∀ c, Str.contains c "/?#" = true →
            Str.find_from c 2 (String "/" (String "/" (auth ++ tail)))
            = (λ i, (2 + (String.length auth + i))%nat) <$> Str.find c tail)
    as Hfind.
  { intros c Hc. unfold Str.find_from. cbn [Str.drop].
    rewrite find_app by (by apply delimiter_not_in_authority).
    by destruct (Str.find c tail). }
  cbn [foldl]. rewrite !Hfind by done.
  cbn [String.length Str.drop]. rewrite str_length_app.
  destruct tail as [|t0 t1].
  - cbn [Str.find fmap option_fmap option_map String.length].
    rewrite Nat.add_0_r, str_app_nil_r.
    replace (S (S (String.length auth)) - 2)%nat with (String.length auth) by lia.
    cbn [Str.drop]. by rewrite take_all, drop_all.
  - assert (t0 = "/" ∨ t0 = "?" ∨ t0 = "#")%char as Ht0.
    { cbn [starts_path Str.contains] in Htail. rewrite orb_false_r in Htail.
      apply orb_true_iff in Htail as [H|Htail];
        [left; by apply eqb_ascii_eq in H|].
      apply orb_true_iff in Htail as [H|H]; apply eqb_ascii_eq in H; auto. }
    destruct Ht0 as [->|[->| ->]];
      cbn [Str.find Str.eqb_ascii Ascii.eqb Bool.eqb String.length];
      destruct (Str.find _ t1), (Str.find _ t1);
      cbn [fmap option_fmap option_map];
      match goal with
      | |- (Str.take (?d - 2) _, _) = _ =>
          replace d with (S (S (String.length auth))) by lia
      end;
      replace (S (S (String.length auth)) - 2)%nat
        with (String.length auth) by lia;
      cbn [Str.drop]; by rewrite take_app, drop_app.
Qed.

(** ** Positions kept by a position index *)

Lemma np_mean_nonempty (xs : list Z) :
  (0 < length xs)%nat →
  np_mean xs
  = Finite (inject_Z (sum_Z xs) / inject_Z (Z.of_nat (length xs)))%Q.
Proof. destruct xs; simpl; [lia|done]. Qed.

Lemma last_index_None {A} (key : A → string) k l :
  last_index key k l = None ↔ ∀ j x, l !! j = Some x → key x ≠ k.
Proof.
  induction l as [|y l IH]; simpl.
  - split; [intros _ j x Hj; by rewrite lookup_nil in Hj | done].
  - destruct (last_index key k l) as [j0|] eqn:E.
    + split; [done|]. intros H. exfalso.
      assert (Some j0 = None) as Hn; [|done].
      apply IH. intros j x Hj. apply (H (S j) x Hj).
    + destruct IH as [IH _]. specialize (IH eq_refl).
      destruct (decide (key y = k)) as [Hk|Hk].
      * split; [done|]. intros H. by destruct (H 0%nat y eq_refl).
      * split; [|done]. intros _ [|j] x Hj; simpl in Hj.
        -- by inversion Hj; subst.
        -- by eapply IH.
Qed.

Lemma last_index_Some {A} (key : A → string) k l j :
  last_index key k l = Some j ↔
  ∃ x, l !! j = Some x ∧ key x = k ∧
       ∀ j' x', (j < j')%nat → l !! j' = Some x' → key x' ≠ k.
Proof.
  revert j. induction l as [|y l IH]; intros j; simpl.
  - split; [done|]. intros (x & Hx & _). by rewrite lookup_nil in Hx.
  - destruct (last_index key k l) as [j0|] eqn:E.
    + destruct (IH j0) as [IH0 _].
      destruct (IH0 eq_refl) as (x0 & Hx0 & Hk0 & Hlast0).
      split.
      * intros [= <-]. exists x0. split_and!; [done..|].
        intros [|j'] x' Hlt Hj'; [lia|]. simpl in Hj'.
        apply (Hlast0 j' x'); [lia|done].
      * intros (x & Hx & Hk & Hlast). f_equal.
        destruct (lt_eq_lt_dec j (S j0)) as [[Hlt|Heq]|Hgt]; [|done|].
        -- by destruct (Hlast (S j0) x0 Hlt Hx0).
        -- destruct j as [|j]; [lia|]. simpl in Hx.
           destruct (Hlast0 j x); [lia|done..].
    + pose proof (proj1 (last_index_None key k l) E) as Hnone.
      destruct (decide (key y = k)) as [Hk|Hk].
      * split.
        -- intros [= <-]. exists y. split_and!; [done..|].
           intros [|j'] x' Hlt Hj'; [lia|]. simpl in Hj'. by eapply Hnone.
        -- intros (x & Hx & Hkx & _). destruct j as [|j]; [done|].
           simpl in Hx. by destruct (Hnone j x Hx).
      * split; [done|]. intros (x & Hx & Hkx & _).
        destruct j as [|j]; simpl in Hx.
        -- by inversion Hx; subst.
        -- by destruct (Hnone j x Hx).
Qed.

Lemma position_index_from {A} (key : A → string) (l : list A) (n : nat)
    (d : gmap string Z) (k : string) :
  foldl (λ d '(i, x), <[key x := (Z.of_nat i + 1)%Z]> d) d
        (imap (λ i x, ((n + i)%nat, x)) l) !! k
  = match last_index key k l with
    | Some j => Some (Z.of_nat (n + j) + 1)%Z
    | None => d !! k
    end.
Proof.
  revert n d. induction l as [|y l IH]; intros n d; [done|].
  rewrite imap_cons. simpl foldl.
  rewrite (imap_ext _ (λ i x, ((S n + i)%nat, x))); last first.
  { intros i x _. simpl. f_equal. lia. }
  rewrite IH. simpl last_index.
  destruct (last_index key k l) as [j|].
  - do 2 f_equal. lia.
  - rewrite !Nat.add_0_r. destruct (decide (key y = k)) as [<-|Hk].
    + rewrite lookup_insert_eq. do 2 f_equal. lia.
    + by rewrite lookup_insert_ne.
Qed.

Lemma position_index_lookup (key : SearchResult → string) organic k :
  position_index key organic !! k
  = (λ j, (Z.of_nat j + 1)%Z) <$> last_index key k organic.
Proof.
  unfold position_index, enumerate.
  rewrite (position_index_from key organic 0 ∅ k).
  by destruct (last_index key k organic).
Qed.

Lemma position_index_last (key : SearchResult → string) organic k p :
  position_index key organic !! k = Some p ↔ is_last_position key organic k p.
Proof.
  rewrite position_index_lookup. unfold is_last_position. split.
  - destruct (last_index key k organic) as [j|] eqn:E; [|done].
    intros [= <-]. apply last_index_Some in E as (x & ? & ? & ?).
    by exists j, x.
  - intros (j & x & -> & Hx & Hk & Hlast).
    assert (last_index key k organic = Some j) as ->; [|done].
    apply last_index_Some. by exists x.
Qed.

Lemma position_index_nil (key : SearchResult → string) :
  position_index key [] = ∅.
Proof. done. Qed.

Lemma position_index_empty (key : SearchResult → string) organic :
  position_index key organic = ∅ ↔ organic = [].
Proof.
  split; [|by intros ->].
  destruct organic as [|x l]; [done|]. intros Hempty. exfalso.
  assert (position_index key (x :: l) !! key x = None) as Hnone
    by (by rewrite Hempty, lookup_empty).
  rewrite position_index_lookup in Hnone.
  destruct (last_index key (key x) (x :: l)) as [j|] eqn:E; [done|].
  apply last_index_None with (j := 0%nat) (x := x) in E; done.
Qed.

Lemma len_position_index_0 (key : SearchResult → string) organic :
  len (position_index key organic) = 0%Z ↔ organic = [].
Proof.
  unfold len. split.
  - intros Hsize. apply (proj1 (position_index_empty key organic)).
    apply map_size_empty_iff. lia.
  - by intros ->.
Qed.

Lemma len_nonneg `{Size C} (c : C) : (0 ≤ len c)%Z.
Proof. unfold len. lia. Qed.

(** ** Dictionary comprehensions over a set *)

Lemma lookup_comprehension {V} (g : string → V) (X : gset string) k v :
  (set_to_map (λ d, (d, g d)) X : gmap string V) !! k = Some v
  ↔ k ∈ X ∧ v = g k.
Proof.
  rewrite lookup_set_to_map; [|by intros ?? _ _ ?].
  split.
  - by intros (y & Hy & [= -> ->]).
  - intros [Hk ->]. by exists k.
Qed.

Lemma comprehension_empty {V} (g : string → V) (X : gset string) :
  (set_to_map (λ d, (d, g d)) X : gmap string V) = ∅ ↔ X = ∅.
Proof.
  split.
  - intros Hempty. apply set_eq. intros k. split; [|set_solver].
    intros Hk. exfalso.
    assert ((set_to_map (λ d, (d, g d)) X : gmap string V) !! k = Some (g k)) as Hin
      by (by apply lookup_comprehension).
    by rewrite Hempty, lookup_empty in Hin.
  - intros ->. apply map_eq. intros k. rewrite lookup_empty.
    apply eq_None_not_Some. intros [v Hv].
    apply lookup_comprehension in Hv as [Hk _]. set_solver.
Qed.

(** ** Rational arithmetic of the similarity ratios *)

Lemma percent_bounds (c m : Z) :
  (0 ≤ c ≤ m)%Z → m ≠ 0%Z →
  (0 <= inject_Z c / inject_Z m * inject_Z 100)%Q ∧
  (inject_Z c / inject_Z m * inject_Z 100 <= inject_Z 100)%Q.
Proof.
  intros [Hc Hm] Hm0.
  assert (0 < inject_Z m)%Q as Hpos.
  { change 0%Q with (inject_Z 0). rewrite <-Zlt_Qlt. lia. }
  assert (0 <= inject_Z c / inject_Z m)%Q as Hlo.
  { apply Qle_shift_div_l; [done|]. rewrite Qmult_0_l.
    change 0%Q with (inject_Z 0). by rewrite <-Zle_Qle. }
  assert (inject_Z c / inject_Z m <= 1)%Q as Hhi.
  { apply Qle_shift_div_r; [done|]. rewrite Qmult_1_l.
    by rewrite <-Zle_Qle. }
  assert (0 <= inject_Z 100)%Q as H100 by done.
  split.
  - by apply Qmult_le_0_compat.
  - rewrite <-(Qmult_1_l (inject_Z 100)) at 2.
    by apply Qmult_le_compat_r.
Qed.

Lemma percent_full (m : Z) :
  m ≠ 0%Z → (inject_Z m / inject_Z m * inject_Z 100 == inject_Z 100)%Q.
Proof.
  intros Hm. assert (¬ inject_Z m == 0)%Q as Hne.
  { intros Heq. apply Hm. by apply (inject_Z_injective m 0). }
  field. done.
Qed.

(** ** The report of [analyze_serp_similarity] *)

Section Properties.

Variable chk : Library.

Abbreviation domains := (λ results, domain_index chk (organic results)).
Abbreviation urls := (λ results, url_index (organic results)).

(** Unfold a successful run into the values of the report's fields. *)
Ltac divisor_cases H :=
  match type of H with
  | context [decide (?m = 0%Z)] =>
      destruct (decide (m = 0%Z)) as [?|?]; [discriminate H|];
      cbn [mbind exn_bind] in H
  end.

Ltac analyze_inv H :=
  unfold analyze_serp_similarity, true_div in H;
  divisor_cases H; divisor_cases H;
  simplify_eq;
  cbn [common_domains common_urls domain_similarity
    url_similarity position_differences avg_position_diff position_changes
    domains1 domains2 total_results1 total_results2] in *.

Lemma index_sizes_0 results1 results2 :
  Z.max (len (domains results1)) (len (domains results2)) = 0%Z
  ↔ organic results1 = [] ∧ organic results2 = [].
Proof.
  unfold domain_index.
  set (key := λ result, get_domain chk (link result)).
  rewrite <-!(len_position_index_0 key).
  pose proof (len_nonneg (position_index key (organic results1))).
  pose proof (len_nonneg (position_index key (organic results2))).
  lia.
Qed.

Lemma url_sizes_0 results1 results2 :
  Z.max (len (urls results1)) (len (urls results2)) = 0%Z
  ↔ organic results1 = [] ∧ organic results2 = [].
Proof.
  unfold url_index. rewrite <-!(len_position_index_0 link).
  pose proof (len_nonneg (position_index link (organic results1))).
  pose proof (len_nonneg (position_index link (organic results2))).
  lia.
Qed.

Lemma analyze_raises results1 results2 :
  organic results1 = [] → organic results2 = [] →
  analyze_serp_similarity chk results1 results2 = inl ZeroDivisionError.
Proof.
  intros H1 H2. unfold analyze_serp_similarity, true_div.
  destruct (decide (Z.max (len (domains results1))
                          (len (domains results2)) = 0%Z))
    as [_|Hne]; [reflexivity|].
  exfalso. by apply Hne, index_sizes_0.
Qed.

Lemma analyze_returns results1 results2 :
  organic results1 ≠ [] ∨ organic results2 ≠ [] →
  ∃ rep, analyze_serp_similarity chk results1 results2 = inr rep.
Proof.
  intros Hne. unfold analyze_serp_similarity, true_div.
  destruct (decide (Z.max (len (domains results1))
                          (len (domains results2)) = 0%Z))
    as [H0|_].
  { apply index_sizes_0 in H0. tauto. }
  cbn [mbind exn_bind].
  destruct (decide (Z.max (len (urls results1)) (len (urls results2)) = 0%Z))
    as [H0|_].
  { apply url_sizes_0 in H0. tauto. }
  cbn [mbind exn_bind]. eauto.
Qed.

Lemma analyze_outcome results1 results2 :
  (organic results1 = [] ∧ organic results2 = []
   ∧ analyze_serp_similarity chk results1 results2 = inl ZeroDivisionError)
  ∨ ∃ rep, analyze_serp_similarity chk results1 results2 = inr rep.
Proof.
  destruct (decide (organic results1 = [])) as [E1|?];
    [|right; apply analyze_returns; by left].
  destruct (decide (organic results2 = [])) as [E2|?];
    [|right; apply analyze_returns; by right].
  left. split_and!; [done..|by apply analyze_raises].
Qed.

Lemma common_lookup (d1 d2 : gmap string Z) k :
  k ∈ dom d1 ∩ dom d2 ↔
  ∃ p1 p2, d1 !! k = Some p1 ∧ d2 !! k = Some p2
           ∧ d1 !!! k = p1 ∧ d2 !!! k = p2.
Proof.
  rewrite elem_of_intersection, !elem_of_dom. split.
  - intros [[p1 H1] [p2 H2]]. exists p1, p2.
    by rewrite !lookup_total_alt, H1, H2.
  - intros (p1 & p2 & H1 & H2 & _). by rewrite H1, H2.
Qed.

Lemma len_common_le (d1 d2 : gmap string Z) :
  (0 ≤ len (dom d1 ∩ dom d2) ≤ Z.max (len d1) (len d2))%Z.
Proof.
  unfold len. split; [lia|].
  assert (size (dom d1 ∩ dom d2) ≤ size (dom d1))%nat as Hle
    by apply subseteq_size, intersection_subseteq_l.
  rewrite size_dom in Hle. lia.
Qed.

(** *** Which occurrence of a duplicate key the indices keep *)

(** C1, as amended: for every result list, the domain index and the URL
    index map each key to the position of its last occurrence in the list
    (an earlier entry with the same domain, resp. URL, is overwritten), and
    every position difference of a report is taken between these last
    positions. *)
Theorem C1_last_seen_wins :
  (∀ organic k p,
     domain_index chk organic !! k = Some p
     ↔ is_last_position (λ result, get_domain chk (link result)) organic k p)
  ∧ (∀ organic k p,
       url_index organic !! k = Some p
       ↔ is_last_position link organic k p)
  ∧ (∀ results1 results2 rep d v,
       analyze_serp_similarity chk results1 results2 = inr rep →
       position_differences rep !! d = Some v →
       ∃ p1 p2,
         is_last_position (λ result, get_domain chk (link result))
           (organic results1) d p1
         ∧ is_last_position (λ result, get_domain chk (link result))
             (organic results2) d p2
         ∧ v = Z.abs (p1 - p2)).
Proof.
  split_and!.
  - intros organic k p. apply position_index_last.
  - intros organic k p. apply position_index_last.
  - intros results1 results2 rep d v Hrep Hv. analyze_inv Hrep.
    apply lookup_comprehension in Hv as [Hd ->].
    apply common_lookup in Hd as (p1 & p2 & H1 & H2 & <- & <-).
    exists (domains results1 !!! d), (domains results2 !!! d).
    rewrite !lookup_total_alt, H1, H2. simpl.
    split_and!; [by apply position_index_last..|done].
Qed.

(** *** Both result lists empty *)

(** C2: with no organic results on either side the first quotient divides
    by [max(0, 0)], and the run ends in [ZeroDivisionError] instead of a
    report with similarity 0. *)
Theorem C2_empty_inputs_raise :
  analyze_serp_similarity chk ∅ ∅ = inl ZeroDivisionError
  ∧ analyze_serp_similarity chk {[ "organic" := [] ]} {[ "organic" := [] ]}
    = inl ZeroDivisionError.
Proof. split; by apply analyze_raises. Qed.

(** *** Range of the similarity ratios *)

(** C3: the domain similarity and the URL similarity of every report lie
    between 0 and 100. *)
Theorem C3_similarity_range results1 results2 rep :
  analyze_serp_similarity chk results1 results2 = inr rep →
  (0 <= domain_similarity rep)%Q ∧ (domain_similarity rep <= 100)%Q
  ∧ (0 <= url_similarity rep)%Q ∧ (url_similarity rep <= 100)%Q.
Proof.
  intros Hrep. analyze_inv Hrep.
  pose proof (percent_bounds _ _
    (len_common_le (domains results1) (domains results2))) as Hd.
  pose proof (percent_bounds _ _
    (len_common_le (urls results1) (urls results2))) as Hu.
  split_and!; [apply Hd|apply Hd|apply Hu|apply Hu]; done.
Qed.

(** *** Swapping the two result sets *)

Lemma position_changes_lookup results1 results2 rep d c :
  analyze_serp_similarity chk results1 results2 = inr rep →
  position_changes rep !! d = Some c
  ↔ ∃ p1 p2,
      domains1 rep !! d = Some p1 ∧ domains2 rep !! d = Some p2
      ∧ (2 < Z.abs (p1 - p2))%Z
      ∧ c = {| pos1 := p1; pos2 := p2; diff := p2 - p1 |}.
Proof.
  intros Hrep. analyze_inv Hrep.
  rewrite lookup_comprehension, elem_of_filter, common_lookup. split.
  - intros [[Hgt (p1 & p2 & H1 & H2 & <- & <-)] ->].
    eexists _, _. split_and!; [done..|lia|done].
  - intros (p1 & p2 & H1 & H2 & Hgt & ->).
    rewrite !lookup_total_alt, H1, H2. simpl. split; [|done].
    split; [lia|]. by exists p1, p2.
Qed.

Lemma analyze_swap results1 results2 rep :
  analyze_serp_similarity chk results1 results2 = inr rep →
  ∃ rep', analyze_serp_similarity chk results2 results1 = inr rep'
          ∧ common_domains rep' = common_domains rep
          ∧ common_urls rep' = common_urls rep
          ∧ domains1 rep' = domains2 rep
          ∧ domains2 rep' = domains1 rep.
Proof.
  intros Hrep.
  destruct (analyze_returns results2 results1) as [rep' Hrep'].
  { destruct (decide (organic results1 = [])) as [E1|?]; [|by right].
    destruct (decide (organic results2 = [])) as [E2|?]; [|by left].
    by rewrite (analyze_raises _ _ E1 E2) in Hrep. }
  exists rep'. split; [done|].
  analyze_inv Hrep. analyze_inv Hrep'.
  split_and!; [apply (comm_L (∩))..|done|done].
Qed.

(** C4: exchanging the two arguments leaves the set of common domains and
    the set of common URLs unchanged; the domains listed in
    [position_changes] are the same, with the two positions exchanged and
    [diff] negated. *)
Theorem C4_swap_arguments results1 results2 rep :
  analyze_serp_similarity chk results1 results2 = inr rep →
  ∃ rep',
    analyze_serp_similarity chk results2 results1 = inr rep'
    ∧ common_domains rep' = common_domains rep
    ∧ common_urls rep' = common_urls rep
    ∧ dom (position_changes rep') = dom (position_changes rep)
    ∧ ∀ d c, position_changes rep !! d = Some c →
             ∃ c', position_changes rep' !! d = Some c'
                   ∧ pos1 c' = pos2 c ∧ pos2 c' = pos1 c
                   ∧ diff c' = (- diff c)%Z.
Proof.
  intros Hrep.
  destruct (analyze_swap _ _ _ Hrep) as (rep' & Hrep' & Hcd & Hcu & Hd1 & Hd2).
  exists rep'. split_and!; [done..| |].
  - apply set_eq. intros d. rewrite !elem_of_dom. unfold is_Some.
    setoid_rewrite (position_changes_lookup _ _ _ _ _ Hrep).
    setoid_rewrite (position_changes_lookup _ _ _ _ _ Hrep').
    rewrite Hd1, Hd2. split.
    + intros (c & p1 & p2 & H1 & H2 & Hgt & ->).
      eexists; exists p2, p1. split_and!; [done..|lia|done].
    + intros (c & p1 & p2 & H1 & H2 & Hgt & ->).
      eexists; exists p2, p1. split_and!; [done..|lia|done].
  - intros d c Hc.
    apply (position_changes_lookup _ _ _ _ _ Hrep)
      in Hc as (p1 & p2 & H1 & H2 & Hgt & ->).
    exists {| pos1 := p2; pos2 := p1; diff := p1 - p2 |}.
    split; [|simpl; split_and!; [done..|lia]].
    apply (position_changes_lookup _ _ _ _ _ Hrep').
    exists p2, p1. rewrite Hd1, Hd2. split_and!; [done..|lia|done].
Qed.

(** *** Identical result lists *)

(** C5, as amended: when both inputs carry the same non-empty result
    list, both similarity ratios are 100, every position difference is 0
    and no position change is reported. *)
Theorem C5_identical_lists results1 results2 :
  organic results1 = organic results2 →
  organic results1 ≠ [] →
  ∃ rep,
    analyze_serp_similarity chk results1 results2 = inr rep
    ∧ (domain_similarity rep == 100)%Q
    ∧ (url_similarity rep == 100)%Q
    ∧ (∀ d v, position_differences rep !! d = Some v → v = 0%Z)
    ∧ position_changes rep = ∅.
Proof.
  intros Heq Hne.
  destruct (analyze_returns results1 results2) as [rep Hrep]; [by left|].
  exists rep. split; [done|].
  pose proof (λ d c, position_changes_lookup _ _ _ d c Hrep) as Hpc.
  analyze_inv Hrep. rewrite <-!Heq in *.
  rewrite !(idemp_L (∩)), !Z.max_id in *.
  unfold len in *. rewrite !size_dom in *.
  split_and!.
  - by apply percent_full.
  - by apply percent_full.
  - intros d v Hv. apply lookup_comprehension in Hv as [_ ->]. lia.
  - apply map_eq. intros d. rewrite lookup_empty.
    apply eq_None_not_Some. intros [c Hc].
    apply Hpc in Hc as (p1 & p2 & H1 & H2 & Hgt & _).
    simplify_eq. lia.
Qed.

(** *** Significant position changes *)

Lemma report_domains results1 results2 rep d :
  analyze_serp_similarity chk results1 results2 = inr rep →
  (∀ p, domains1 rep !! d = Some p
        ↔ is_last_position (λ result, get_domain chk (link result))
            (organic results1) d p)
  ∧ (∀ p, domains2 rep !! d = Some p
          ↔ is_last_position (λ result, get_domain chk (link result))
              (organic results2) d p)
  ∧ (d ∈ common_domains rep
     ↔ (∃ p1, is_last_position (λ result, get_domain chk (link result))
                (organic results1) d p1)
       ∧ (∃ p2, is_last_position (λ result, get_domain chk (link result))
                  (organic results2) d p2)).
Proof.
  intros Hrep. analyze_inv Hrep. unfold domain_index.
  split_and!; [intros p; apply position_index_last..|].
  rewrite elem_of_intersection, !elem_of_dom. unfold is_Some.
  by setoid_rewrite position_index_last.
Qed.

(** C6: [position_changes] has an entry for a domain exactly when the
    domain is common to both result lists and its positions in the two
    lists differ by more than 2 (a difference of exactly 2 gives no entry);
    the entry records both positions and [diff = pos2 - pos1], so that
    [diff] is positive exactly when the position in the second list is the
    higher-numbered one.  The position of a domain in a list is that of its
    last entry there. *)
Theorem C6_position_changes results1 results2 rep :
  analyze_serp_similarity chk results1 results2 = inr rep →
  (∀ d, d ∈ common_domains rep
        ↔ (∃ p1, is_last_position (λ result, get_domain chk (link result))
                   (organic results1) d p1)
          ∧ (∃ p2, is_last_position (λ result, get_domain chk (link result))
                     (organic results2) d p2))
  ∧ (∀ d c,
       position_changes rep !! d = Some c
       ↔ d ∈ common_domains rep
         ∧ ∃ p1 p2,
             is_last_position (λ result, get_domain chk (link result))
               (organic results1) d p1
             ∧ is_last_position (λ result, get_domain chk (link result))
                 (organic results2) d p2
             ∧ (Z.abs (p1 - p2) > 2)%Z
             ∧ c = {| pos1 := p1; pos2 := p2; diff := p2 - p1 |})
  ∧ (∀ d p1 p2,
       is_last_position (λ result, get_domain chk (link result))
         (organic results1) d p1 →
       is_last_position (λ result, get_domain chk (link result))
         (organic results2) d p2 →
       Z.abs (p1 - p2) = 2%Z → position_changes rep !! d = None)
  ∧ (∀ d c, position_changes rep !! d = Some c →
            (0 < diff c)%Z ↔ (pos1 c < pos2 c)%Z).
Proof.
  intros Hrep.
  pose proof (λ d c, position_changes_lookup _ _ _ d c Hrep) as Hpc.
  pose proof (λ d, report_domains _ _ _ d Hrep) as Hdom.
  split_and!.
  - intros d. apply Hdom.
  - intros d c. rewrite Hpc.
    destruct (Hdom d) as (H1 & H2 & Hcommon). rewrite Hcommon. split.
    + intros (p1 & p2 & Hp1 & Hp2 & Hgt & ->).
      apply H1 in Hp1. apply H2 in Hp2. split; [by eauto|].
      exists p1, p2. split_and!; [done..|lia|done].
    + intros [_ (p1 & p2 & Hp1 & Hp2 & Hgt & ->)].
      apply H1 in Hp1. apply H2 in Hp2.
      exists p1, p2. split_and!; [done..|lia|done].
  - intros d p1 p2 Hp1 Hp2 Habs. apply eq_None_not_Some. intros [c Hc].
    destruct (Hdom d) as (H1 & H2 & _). apply H1 in Hp1. apply H2 in Hp2.
    apply Hpc in Hc as (q1 & q2 & Hq1 & Hq2 & Hgt & _). simplify_eq. lia.
  - intros d c Hc. apply Hpc in Hc as (p1 & p2 & _ & _ & _ & ->).
    simpl. lia.
Qed.

(** *** Average position difference *)

Lemma dom_comprehension {V} (g : string → V) (X : gset string) :
  dom (set_to_map (λ d, (d, g d)) X : gmap string V) = X.
Proof.
  apply set_eq. intros k. rewrite elem_of_dom. unfold is_Some.
  setoid_rewrite lookup_comprehension. split.
  - by intros (v & Hk & _).
  - intros Hk. by exists (g k).
Qed.

Lemma length_values {V} (d : gmap string V) :
  length (values d) = size d.
Proof. unfold values. by rewrite length_fmap, length_map_to_list. Qed.

Lemma position_differences_grounded results1 results2 rep d v :
  analyze_serp_similarity chk results1 results2 = inr rep →
  position_differences rep !! d = Some v
  ↔ ∃ p1 p2,
      is_last_position (λ result, get_domain chk (link result))
        (organic results1) d p1
      ∧ is_last_position (λ result, get_domain chk (link result))
          (organic results2) d p2
      ∧ v = Z.abs (p1 - p2).
Proof.
  intros Hrep. destruct (report_domains _ _ _ d Hrep) as (H1 & H2 & _).
  setoid_rewrite <-H1. setoid_rewrite <-H2. clear H1 H2.
  analyze_inv Hrep. rewrite lookup_comprehension, common_lookup. split.
  - intros [(p1 & p2 & H1 & H2 & <- & <-) ->]. by eauto.
  - intros (p1 & p2 & H1 & H2 & ->).
    rewrite !lookup_total_alt, H1, H2. simpl. split; [|done].
    by exists p1, p2.
Qed.

Lemma average_of_report results1 results2 rep :
  analyze_serp_similarity chk results1 results2 = inr rep →
  (common_domains rep = ∅ → avg_position_diff rep = Finite 0)
  ∧ (common_domains rep ≠ ∅ →
     avg_position_diff rep
     = Finite (inject_Z (sum_Z (values (position_differences rep)))
               / inject_Z (Z.of_nat (length (values (position_differences rep)))))
     ∧ length (values (position_differences rep)) = size (common_domains rep)
     ∧ (0 < length (values (position_differences rep)))%nat).
Proof.
  intros Hrep. analyze_inv Hrep. split.
  - intros Hempty. rewrite decide_True; [done|].
    by apply comprehension_empty.
  - intros Hne. rewrite decide_False; [|by rewrite comprehension_empty].
    match goal with |- context [np_mean (values ?m)] => set (pd := m) end.
    assert (length (values pd)
            = size (dom (domains results1) ∩ dom (domains results2))) as Hlen.
    { unfold pd. by rewrite length_values, <-size_dom, dom_comprehension. }
    assert (size (dom (domains results1) ∩ dom (domains results2)) ≠ 0%nat)
      as Hsize.
    { rewrite size_empty_iff. by intros ?%leibniz_equiv. }
    split_and!; [apply np_mean_nonempty; lia|done|lia].
Qed.

(** C7: with neither input holding a result there is no common domain, and
    the run ends in [ZeroDivisionError] at the first quotient, before the
    guarded average is reached.  On every other pair of inputs a report is
    returned; its common domains are those with an entry in both lists, its
    position differences are taken between the last positions there, and
    its average is 0 with no common domain and otherwise the sum of the
    position differences divided by their number, one per common domain. *)
Theorem C7_average_or_raise :
  analyze_serp_similarity chk ∅ ∅ = inl ZeroDivisionError
  ∧ ∀ results1 results2,
      (organic results1 = [] ∧ organic results2 = []
       ∧ analyze_serp_similarity chk results1 results2
         = inl ZeroDivisionError)
      ∨ ∃ rep,
          analyze_serp_similarity chk results1 results2 = inr rep
          ∧ (∀ d, d ∈ common_domains rep
                  ↔ (∃ p1, is_last_position
                             (λ result, get_domain chk (link result))
                             (organic results1) d p1)
                    ∧ (∃ p2, is_last_position
                               (λ result, get_domain chk (link result))
                               (organic results2) d p2))
          ∧ (∀ d v, position_differences rep !! d = Some v
                    ↔ ∃ p1 p2,
                        is_last_position
                          (λ result, get_domain chk (link result))
                          (organic results1) d p1
                        ∧ is_last_position
                            (λ result, get_domain chk (link result))
                            (organic results2) d p2
                        ∧ v = Z.abs (p1 - p2))
          ∧ (common_domains rep = ∅ → avg_position_diff rep = Finite 0)
          ∧ (common_domains rep ≠ ∅ →
             avg_position_diff rep
             = Finite
                 (inject_Z (sum_Z (values (position_differences rep)))
                  / inject_Z
                      (Z.of_nat (length (values (position_differences rep)))))
             ∧ length (values (position_differences rep))
               = size (common_domains rep)
             ∧ (0 < length (values (position_differences rep)))%nat).
Proof.
  split; [by apply analyze_raises|]. intros results1 results2.
  destruct (analyze_outcome results1 results2) as [Hraise|[rep Hrep]];
    [by left|right].
  exists rep. split; [done|].
  destruct (average_of_report _ _ _ Hrep) as [Hzero Hmean].
  split_and!; [|intros d v; by apply position_differences_grounded|done..].
  intros d. by apply (report_domains _ _ _ d Hrep).
Qed.

(** *** A missing ['organic'] key *)

Lemma analyze_organic_ext results1 results2 results1' results2' :
  organic results1 = organic results1' →
  organic results2 = organic results2' →
  analyze_serp_similarity chk results1 results2
  = analyze_serp_similarity chk results1' results2'.
Proof.
  intros H1 H2. unfold analyze_serp_similarity. by rewrite H1, H2.
Qed.

Lemma organic_missing results :
  results !! "organic" = None →
  organic results = [] ∧ organic (<["organic" := []]> results) = [].
Proof.
  intros Hnone. unfold organic. by rewrite Hnone, lookup_insert_eq.
Qed.

(** C10: an input without the ['organic'] key is analysed as if the key
    held the empty list: the outcome is the same, a report counts 0 results
    for that input, and a report is produced whenever the other input has
    at least one result. *)
Theorem C10_missing_organic results1 results2 :
  (results1 !! "organic" = None →
     analyze_serp_similarity chk results1 results2
     = analyze_serp_similarity chk (<["organic" := []]> results1) results2
     ∧ (∀ rep, analyze_serp_similarity chk results1 results2 = inr rep →
               total_results1 rep = 0%Z)
     ∧ (organic results2 ≠ [] →
        ∃ rep, analyze_serp_similarity chk results1 results2 = inr rep))
  ∧ (results2 !! "organic" = None →
     analyze_serp_similarity chk results1 results2
     = analyze_serp_similarity chk results1 (<["organic" := []]> results2)
     ∧ (∀ rep, analyze_serp_similarity chk results1 results2 = inr rep →
               total_results2 rep = 0%Z)
     ∧ (organic results1 ≠ [] →
        ∃ rep, analyze_serp_similarity chk results1 results2 = inr rep)).
Proof.
  split; intros Hnone; destruct (organic_missing _ Hnone) as [He He'].
  - split_and!.
    + apply analyze_organic_ext; [by rewrite He, He'|done].
    + intros rep Hrep. analyze_inv Hrep. by rewrite He.
    + intros Hne. apply analyze_returns. by right.
  - split_and!.
    + apply analyze_organic_ext; [done|by rewrite He, He'].
    + intros rep Hrep. analyze_inv Hrep. by rewrite He.
    + intros Hne. apply analyze_returns. by left.
Qed.

(** *** The two-result scenario *)

(** C9: for A = [https://a.com/1, https://b.com/1] and
    B = [https://b.com/2, https://a.com/1] the report has common domains
    {a.com, b.com}, domain positions {a.com: 1, b.com: 2} in A and
    {b.com: 1, a.com: 2} in B, position differences {a.com: 1, b.com: 1},
    common URLs {https://a.com/1} and no position change. *)
Theorem C9_scenario :
  ∃ rep,
    analyze_serp_similarity chk scenario_A scenario_B = inr rep
    ∧ common_domains rep = {[ "a.com"; "b.com" ]}
    ∧ domains1 rep = {[ "a.com" := 1%Z; "b.com" := 2%Z ]}
    ∧ domains2 rep = {[ "b.com" := 1%Z; "a.com" := 2%Z ]}
    ∧ position_differences rep = {[ "a.com" := 1%Z; "b.com" := 1%Z ]}
    ∧ common_urls rep = {[ "https://a.com/1" ]}
    ∧ position_changes rep = ∅.
Proof.
  eexists. split; [vm_compute; reflexivity|].
  cbn [common_domains common_urls position_differences position_changes
       domains1 domains2].
  split_and!; vm_compute; reflexivity.
Qed.

End Properties.

(** ** The domain of a URL *)

Section NetworkLocation.

Variable chk : Library.

Lemma all_filter (f g : ascii → bool) s :
  Str.all f s = true → Str.all f (Str.filter g s) = true.
Proof.
  induction s as [|a s IH]; [done|]. cbn [Str.all Str.filter].
  intros [Ha Hs]%andb_true_iff. destruct (g a); [|by apply IH].
  cbn [Str.all]. by rewrite Ha, IH.
Qed.

Lemma checknetloc_ascii netloc :
  isascii netloc = true → _checknetloc chk netloc = inr ().
Proof. intros Hascii. unfold _checknetloc. by rewrite Hascii, orb_true_r. Qed.

Lemma plain_authority_ascii auth :
  plain_authority auth = true → isascii auth = true.
Proof.
  apply all_impl. by intros a [_ Ha]%andb_true_iff.
Qed.

Lemma urlsplit_authority sch auth tail :
  is_scheme sch = true → plain_authority auth = true →
  starts_path tail = true →
  ∃ tail',
    urlsplit chk (sch ++ "://" ++ auth ++ tail)
    = inr {| scheme := Str.lower sch; netloc := remove_unsafe auth;
             rest := tail' |}.
Proof.
  intros Hsch Hauth Htail.
  exists (Str.filter (λ c, negb (_UNSAFE_URL_BYTES_TO_REMOVE c)) tail).
  unfold urlsplit.
  assert (Str.lstrip _WHATWG_C0_CONTROL_OR_SPACE (sch ++ "://" ++ auth ++ tail)
          = sch ++ "://" ++ auth ++ tail) as ->.
  { destruct sch as [|c0 s0]; [done|].
    apply andb_true_iff in Hsch as [Hc0 _].
    rewrite app_String. cbn [Str.lstrip].
    by rewrite (alpha_not_stripped _ Hc0). }
  rewrite !filter_app.
  rewrite (filter_all _ sch); last first.
  { destruct sch as [|c0 s0]; [done|].
    apply andb_true_iff in Hsch as [_ Hall].
    eapply all_impl; [|exact Hall]. apply scheme_char_kept. }
  change (Str.filter _ "://") with "://".
  fold (remove_unsafe auth).
  assert (plain_authority (remove_unsafe auth) = true) as Hclean
    by (by apply all_filter).
  rewrite !app_String, app_empty.
  rewrite (split_scheme_app _ _ Hsch).
  assert (starts_path
            (Str.filter (λ c, negb (_UNSAFE_URL_BYTES_TO_REMOVE c)) tail)
          = true) as Htail'.
  { destruct tail as [|t0 t1]; [done|]. cbn [starts_path] in Htail.
    cbn [Str.filter].
    assert (negb (_UNSAFE_URL_BYTES_TO_REMOVE t0) = true) as ->; [|done].
    cbn [Str.contains] in Htail. rewrite orb_false_r in Htail.
    repeat (apply orb_true_iff in Htail as [H|Htail];
            [by apply eqb_ascii_eq in H as <-|]).
    by apply eqb_ascii_eq in Htail as <-. }
  unfold split_netloc. cbn [Str.take String.eqb Ascii.eqb Bool.eqb].
  rewrite (splitnetloc_authority _ _ Hclean Htail').
  destruct (bracket_not_in_authority _ Hclean) as [-> ->].
  cbn [andb orb negb mbind exn_bind].
  by rewrite (checknetloc_ascii _ (plain_authority_ascii _ Hclean)).
Qed.

(** C8, as amended: for a URL made of a scheme, ["://"], an authority of
    ASCII characters without brackets and nothing more or a path, query or
    fragment, the domain is the network location without a leading
    ["www."], provided ["www."] does not occur in what follows that prefix.
    The network location is the authority with its tabs, carriage returns
    and line feeds deleted and otherwise as written, user information, port
    and letter case included. *)
Theorem C8_domain_of_authority sch auth tail :
  is_scheme sch = true → plain_authority auth = true →
  starts_path tail = true →
  occurs "www." (strip_www (remove_unsafe auth)) = false →
  get_domain chk (sch ++ "://" ++ auth ++ tail)
  = strip_www (remove_unsafe auth)
  ∧ (Str.all (λ c, negb (_UNSAFE_URL_BYTES_TO_REMOVE c)) auth = true →
     remove_unsafe auth = auth).
Proof.
  intros Hsch Hauth Htail Hwww. split; [|apply filter_all].
  unfold get_domain, urlparse.
  destruct (urlsplit_authority _ _ _ Hsch Hauth Htail) as [tail' ->].
  cbn [netloc]. by apply replace_www.
Qed.

End NetworkLocation.

(** ** Concrete runs *)

(** C1, counterexample: in [https://a.com/1, https://b.com/1,
    https://a.com/1] the first occurrence of the domain a.com and of the URL
    https://a.com/1 is at position 1, yet both indices hold position 3, and
    the position difference against a list with a.com at position 1 is 2
    rather than 0. *)
Lemma C1_first_seen_counterexample :
  is_first_position (λ result, get_domain no_bracket_check (link result))
    (organic repeated_A) "a.com" 1
  ∧ domain_index no_bracket_check (organic repeated_A) !! "a.com" = Some 3%Z
  ∧ ¬ is_first_position (λ result, get_domain no_bracket_check (link result))
        (organic repeated_A) "a.com" 3
  ∧ is_first_position link (organic repeated_A) "https://a.com/1" 1
  ∧ url_index (organic repeated_A) !! "https://a.com/1" = Some 3%Z
  ∧ ∃ rep,
      analyze_serp_similarity no_bracket_check repeated_A repeated_B = inr rep
      ∧ position_differences rep !! "a.com" = Some 2%Z.
Proof.
  split_and!.
  - exists 0%nat, (result_of_url "https://a.com/1").
    split_and!; [done|by vm_compute|by vm_compute|intros; lia].
  - by vm_compute.
  - intros (j & x & Hp & _ & _ & Hfirst).
    apply (Hfirst 0%nat (result_of_url "https://a.com/1"));
      [lia|by vm_compute..].
  - exists 0%nat, (result_of_url "https://a.com/1").
    split_and!; [done|by vm_compute|done|intros; lia].
  - by vm_compute.
  - eexists. split; [vm_compute; reflexivity|]. by vm_compute.
Qed.

Lemma C1_last_seen_wins_witness :
  ∃ p1 p2,
    is_last_position (λ result, get_domain no_bracket_check (link result))
      (organic repeated_A) "a.com" p1
    ∧ is_last_position (λ result, get_domain no_bracket_check (link result))
        (organic repeated_B) "a.com" p2
    ∧ 2%Z = Z.abs (p1 - p2).
Proof.
  destruct (C1_last_seen_wins no_bracket_check) as (_ & _ & Hdiff).
  eapply (Hdiff repeated_A repeated_B); by vm_compute.
Defined.

Lemma reversed_report_eq :
  analyze_serp_similarity no_bracket_check reversed_A reversed_B
  = inr reversed_report.
Proof. by vm_compute. Qed.

Lemma C3_similarity_range_witness :
  (0 <= domain_similarity reversed_report)%Q
  ∧ (domain_similarity reversed_report <= 100)%Q
  ∧ (0 <= url_similarity reversed_report)%Q
  ∧ (url_similarity reversed_report <= 100)%Q.
Proof.
  apply (C3_similarity_range no_bracket_check reversed_A reversed_B).
  exact reversed_report_eq.
Defined.

Lemma C4_swap_arguments_witness :
  ∃ rep',
    analyze_serp_similarity no_bracket_check reversed_B reversed_A = inr rep'
    ∧ common_domains rep' = common_domains reversed_report
    ∧ common_urls rep' = common_urls reversed_report
    ∧ dom (position_changes rep') = dom (position_changes reversed_report)
    ∧ ∀ d c, position_changes reversed_report !! d = Some c →
             ∃ c', position_changes rep' !! d = Some c'
                   ∧ pos1 c' = pos2 c ∧ pos2 c' = pos1 c
                   ∧ diff c' = (- diff c)%Z.
Proof.
  apply (C4_swap_arguments no_bracket_check reversed_A reversed_B).
  exact reversed_report_eq.
Defined.

(** C5, counterexample: two identical empty result lists give no report at
    all, hence none with similarity 100. *)
Lemma C5_identical_empty_counterexample :
  organic (results_of []) = organic (results_of [])
  ∧ ¬ ∃ rep,
        analyze_serp_similarity no_bracket_check (results_of []) (results_of [])
        = inr rep
        ∧ (domain_similarity rep == 100)%Q ∧ (url_similarity rep == 100)%Q.
Proof.
  split; [done|]. intros (rep & Hrep & _).
  by rewrite analyze_raises in Hrep.
Qed.

Lemma C5_identical_lists_witness :
  ∃ rep,
    analyze_serp_similarity no_bracket_check reversed_A reversed_A = inr rep
    ∧ (domain_similarity rep == 100)%Q
    ∧ (url_similarity rep == 100)%Q
    ∧ (∀ d v, position_differences rep !! d = Some v → v = 0%Z)
    ∧ position_changes rep = ∅.
Proof.
  apply (C5_identical_lists no_bracket_check reversed_A reversed_A);
    by vm_compute.
Defined.

Lemma C6_position_changes_witness :
  (∀ d, d ∈ common_domains reversed_report
        ↔ (∃ p1, is_last_position
                   (λ result, get_domain no_bracket_check (link result))
                   (organic reversed_A) d p1)
          ∧ (∃ p2, is_last_position
                     (λ result, get_domain no_bracket_check (link result))
                     (organic reversed_B) d p2))
  ∧ (∀ d c,
       position_changes reversed_report !! d = Some c
       ↔ d ∈ common_domains reversed_report
         ∧ ∃ p1 p2,
             is_last_position
               (λ result, get_domain no_bracket_check (link result))
               (organic reversed_A) d p1
             ∧ is_last_position
                 (λ result, get_domain no_bracket_check (link result))
                 (organic reversed_B) d p2
             ∧ (Z.abs (p1 - p2) > 2)%Z
             ∧ c = {| pos1 := p1; pos2 := p2; diff := p2 - p1 |})
  ∧ (∀ d p1 p2,
       is_last_position
         (λ result, get_domain no_bracket_check (link result))
         (organic reversed_A) d p1 →
       is_last_position
         (λ result, get_domain no_bracket_check (link result))
         (organic reversed_B) d p2 →
       Z.abs (p1 - p2) = 2%Z → position_changes reversed_report !! d = None)
  ∧ (∀ d c, position_changes reversed_report !! d = Some c →
            (0 < diff c)%Z ↔ (pos1 c < pos2 c)%Z).
Proof.
  apply (C6_position_changes no_bracket_check reversed_A reversed_B).
  exact reversed_report_eq.
Defined.

Lemma C10_missing_organic_witness :
  analyze_serp_similarity no_bracket_check ∅ reversed_B
  = analyze_serp_similarity no_bracket_check (<["organic" := []]> ∅) reversed_B
  ∧ (∀ rep, analyze_serp_similarity no_bracket_check ∅ reversed_B = inr rep →
            total_results1 rep = 0%Z)
  ∧ (organic reversed_B ≠ [] →
     ∃ rep, analyze_serp_similarity no_bracket_check ∅ reversed_B = inr rep).
Proof.
  destruct (C10_missing_organic no_bracket_check ∅ reversed_B) as [Hfirst _].
  apply Hfirst. apply lookup_empty.
Defined.

Lemma C8_domain_of_authority_witness :
  get_domain no_bracket_check
    ("https" ++ "://" ++ "www.example.com:8080" ++ "/search?q=1")
  = strip_www (remove_unsafe "www.example.com:8080")
  ∧ (Str.all (λ c, negb (_UNSAFE_URL_BYTES_TO_REMOVE c))
       "www.example.com:8080" = true →
     remove_unsafe "www.example.com:8080" = "www.example.com:8080").
Proof.
  apply (C8_domain_of_authority no_bracket_check
           "https" "www.example.com:8080" "/search?q=1"); reflexivity.
Defined.

(** C8, counterexample: the host of https://example.com:8080/ is
    example.com, yet the domain keeps the port; the host of
    https://awww.com/ is awww.com, which has no leading ["www."], yet the
    domain is acom. *)
Lemma C8_normalized_host_counterexample :
  (urlparse no_bracket_check "https://example.com:8080/"
   = inr {| scheme := "https"; netloc := "example.com:8080"; rest := "/" |}
   ∧ normalized_host "example.com:8080" = "example.com"
   ∧ get_domain no_bracket_check "https://example.com:8080/"
     = "example.com:8080"
   ∧ get_domain no_bracket_check "https://example.com:8080/"
     ≠ normalized_host "example.com:8080")
  ∧ (urlparse no_bracket_check "https://awww.com/"
     = inr {| scheme := "https"; netloc := "awww.com"; rest := "/" |}
     ∧ normalized_host "awww.com" = "awww.com"
     ∧ get_domain no_bracket_check "https://awww.com/" = "acom"
     ∧ get_domain no_bracket_check "https://awww.com/"
       ≠ normalized_host "awww.com").
Proof. split; split_and!; by vm_compute. Qed.

(** Every occurrence of ["www."] in the network location is removed, not
    only a leading one; a URL that cannot be parsed is its own domain; a URL
    without ["//"] has the empty domain. *)
Lemma get_domain_examples :
  get_domain no_bracket_check "https://www.example.com/a" = "example.com"
  ∧ get_domain no_bracket_check "https://shop.www.example.com/"
    = "shop.example.com"
  ∧ get_domain no_bracket_check "https://[::1/" = "https://[::1/"
  ∧ get_domain no_bracket_check "www.example.com/a" = "".
Proof. split_and!; by vm_compute. Qed.

(** A network location that holds a delimiter only after NFKC normalisation
    is refused by [urlsplit], and the URL is then its own domain; a
    non-ASCII network location that normalisation leaves alone is kept. *)
Lemma get_domain_normalisation_examples :
  urlparse account_of_library "https://a℀b.com/" = inl ValueError
  ∧ get_domain account_of_library "https://a℀b.com/" = "https://a℀b.com/"
  ∧ get_domain account_of_library "https://www.école.fr/x" = "école.fr".
Proof. split_and!; by vm_compute. Qed.

(** * Further properties of the code *)

(** ** [get_domain]: what the domain depends on *)

Section DomainFacts.

Variable chk : Library.

Lemma get_domain_authority sch auth tail :
  is_scheme sch = true → plain_authority auth = true →
  starts_path tail = true →
  get_domain chk (sch ++ "://" ++ auth ++ tail)
  = Str.replace "www." "" (remove_unsafe auth).
Proof.
  intros Hsch Hauth Htail. unfold get_domain, urlparse.
  by destruct (urlsplit_authority chk _ _ _ Hsch Hauth Htail) as [tail' ->].
Qed.

(** X1: two URLs with the same authority, of ASCII characters and without
    brackets, have the same domain, whatever their schemes and whatever
    path, query or fragment follows. *)
Theorem X1_domain_ignores_scheme_and_path sch1 sch2 auth tail1 tail2 :
  is_scheme sch1 = true → is_scheme sch2 = true →
  plain_authority auth = true →
  starts_path tail1 = true → starts_path tail2 = true →
  get_domain chk (sch1 ++ "://" ++ auth ++ tail1)
  = get_domain chk (sch2 ++ "://" ++ auth ++ tail2).
Proof.
  intros H1 H2 Hauth Ht1 Ht2. by rewrite !get_domain_authority.
Qed.

Lemma plain_authority_www auth :
  plain_authority auth = true → plain_authority ("www." ++ auth) = true.
Proof. intros Hauth. unfold plain_authority in *. by rewrite !app_String. Qed.

(** X2: an authority of ASCII characters without brackets and the same
    authority behind a leading ["www."] have the same domain. *)
Theorem X2_domain_ignores_leading_www sch auth tail :
  is_scheme sch = true → plain_authority auth = true →
  starts_path tail = true →
  get_domain chk (sch ++ "://" ++ ("www." ++ auth) ++ tail)
  = get_domain chk (sch ++ "://" ++ auth ++ tail).
Proof.
  intros Hsch Hauth Htail.
  rewrite !get_domain_authority by auto using plain_authority_www.
  unfold remove_unsafe. rewrite filter_app.
  change (Str.filter _ "www.") with "www.". by rewrite replace_prefix.
Qed.

End DomainFacts.

(** ** [get_domain]: which characters a domain can hold *)

Section ContainsFacts.

Implicit Types (s t : string) (c a : ascii).

Lemma contains_lstrip f c s :
  Str.contains c (Str.lstrip f s) = true → Str.contains c s = true.
Proof.
  induction s as [|a s IH]; [done|]. cbn [Str.lstrip].
  destruct (f a); [|done]. intros H. cbn [Str.contains].
  by rewrite (IH H), orb_true_r.
Qed.

Lemma contains_filter f c s :
  Str.contains c (Str.filter f s) = true → Str.contains c s = true.
Proof.
  induction s as [|a s IH]; [done|]. cbn [Str.filter Str.contains].
  destruct (f a); cbn [Str.contains].
  - intros [->|H]%orb_true_iff; [done|]. by rewrite (IH H), orb_true_r.
  - intros H. by rewrite (IH H), orb_true_r.
Qed.

Lemma contains_drop c n s :
  Str.contains c (Str.drop n s) = true → Str.contains c s = true.
Proof.
  revert n. induction s as [|a s IH]; intros [|n]; try done.
  cbn [Str.drop Str.contains]. intros H. by rewrite (IH _ H), orb_true_r.
Qed.

Lemma contains_take c n s :
  Str.contains c (Str.take n s) = true → Str.contains c s = true.
Proof.
  revert n. induction s as [|a s IH]; intros [|n]; try done.
  cbn [Str.take Str.contains].
  intros [->|H]%orb_true_iff; [done|]. by rewrite (IH _ H), orb_true_r.
Qed.

Lemma contains_app_r c s t :
  Str.contains c t = true → Str.contains c (s ++ t) = true.
Proof.
  intros Ht. induction s as [|a s IH]; [done|].
  rewrite app_String. cbn [Str.contains]. by rewrite IH, orb_true_r.
Qed.

Lemma contains_replace_from old k c s :
  Str.contains c (Str.replace_from old "" k s) = true →
  Str.contains c s = true.
Proof.
  revert k. induction s as [|a s IH]; intros k; [done|].
  cbn [Str.replace_from Str.contains]. destruct k as [|k].
  - destruct (Str.startswith old (String a s)).
    + rewrite app_empty. intros H. by rewrite (IH _ H), orb_true_r.
    + cbn [Str.contains].
      intros [->|H]%orb_true_iff; [done|]. by rewrite (IH _ H), orb_true_r.
  - intros H. by rewrite (IH _ H), orb_true_r.
Qed.

Lemma take_before_find c n s :
  (∀ k, Str.find c s = Some k → (n ≤ k)%nat) →
  Str.contains c (Str.take n s) = false.
Proof.
  revert n. induction s as [|a s IH]; intros [|n] Hfind; try done.
  cbn [Str.take Str.contains]. cbn [Str.find] in Hfind.
  destruct (Str.eqb_ascii a c).
  - specialize (Hfind 0%nat eq_refl). lia.
  - rewrite orb_false_l. apply IH. intros k Hk.
    specialize (Hfind (S k)). rewrite Hk in Hfind.
    specialize (Hfind eq_refl). lia.
Qed.

Lemma split_scheme_rest url :
  ∃ n, (split_scheme url).2 = Str.drop n url.
Proof.
  unfold split_scheme.
  destruct (Str.find ":" url) as [[|i]|]; try by exists 0%nat; destruct url.
  destruct url as [|c0 url]; [by exists 0%nat|].
  destruct (_ && _); [by eexists|by exists 0%nat].
Qed.

Lemma delimiter_cases c :
  Str.contains c "/?#" = true → (c = "/" ∨ c = "?" ∨ c = "#")%char.
Proof.
  cbn [Str.contains]. rewrite orb_false_r.
  intros [H|[H|H]%orb_true_iff]%orb_true_iff;
    apply eqb_ascii_eq in H; auto.
Qed.

Lemma splitnetloc_netloc url start c :
  Str.contains c "/?#" = true →
  Str.contains c (_splitnetloc url start).1 = false.
Proof.
  intros Hc. unfold _splitnetloc. cbn [fst foldl].
  apply take_before_find. intros k Hk.
  assert (Str.find_from c start url = Some (start + k)%nat) as Hfrom
    by (unfold Str.find_from; by rewrite Hk).
  destruct (delimiter_cases c Hc) as [->|[->| ->]]; rewrite Hfrom;
    repeat match goal with
           | |- context [Str.find_from ?d start url] =>
               destruct (Str.find_from d start url)
           end; lia.
Qed.

Lemma splitnetloc_within url start c :
  Str.contains c (_splitnetloc url start).1 = true →
  Str.contains c url = true.
Proof.
  unfold _splitnetloc. cbn [fst]. intros H.
  by eapply contains_drop, contains_take.
Qed.

Lemma prepared_source url n c :
  Str.contains c
    (Str.drop n
       (Str.filter (λ c, negb (_UNSAFE_URL_BYTES_TO_REMOVE c))
          (Str.lstrip _WHATWG_C0_CONTROL_OR_SPACE url))) = true →
  Str.contains c url = true.
Proof.
  intros H. by eapply contains_lstrip, contains_filter, contains_drop.
Qed.

End ContainsFacts.

Section DomainCharacters.

Variable chk : Library.

Lemma all_lstrip (f g : ascii → bool) s :
  Str.all f s = true → Str.all f (Str.lstrip g s) = true.
Proof.
  induction s as [|a s IH]; [done|]. cbn [Str.lstrip].
  destruct (g a); [|done]. cbn [Str.all].
  intros [_ Hs]%andb_true_iff. by apply IH.
Qed.

Lemma all_drop (f : ascii → bool) n s :
  Str.all f s = true → Str.all f (Str.drop n s) = true.
Proof.
  revert n. induction s as [|a s IH]; intros [|n]; try done.
  cbn [Str.drop Str.all]. intros [_ Hs]%andb_true_iff. by apply IH.
Qed.

Lemma all_take (f : ascii → bool) n s :
  Str.all f s = true → Str.all f (Str.take n s) = true.
Proof.
  revert n. induction s as [|a s IH]; intros [|n]; try done.
  cbn [Str.take Str.all]. intros [Ha Hs]%andb_true_iff.
  by rewrite Ha, IH.
Qed.

(** The text that [urlsplit] cuts the network location from: the URL
    stripped of leading blanks, of its tabs and line breaks and, after [n]
    characters, of its scheme. *)
Lemma urlsplit_unfold url :
  ∃ n sch,
    urlsplit chk url
    = ('(netloc, rest) ← split_netloc chk
                           (Str.drop n
                              (remove_unsafe
                                 (Str.lstrip _WHATWG_C0_CONTROL_OR_SPACE url)));
       _ ← _checknetloc chk netloc;
       inr (mkParseResult sch netloc rest)).
Proof.
  unfold urlsplit, remove_unsafe.
  set (url2 := Str.filter _ (Str.lstrip _ url)).
  destruct (split_scheme_rest url2) as [n Hrest].
  destruct (split_scheme url2) as [sch url3]. cbn [snd] in Hrest.
  exists n, sch. by rewrite Hrest.
Qed.

Lemma split_netloc_inr url netloc tail :
  split_netloc chk url = inr (netloc, tail) →
  (∀ c, Str.contains c netloc = true → Str.contains c url = true)
  ∧ (∀ c, Str.contains c "/?#" = true → Str.contains c netloc = false)
  ∧ (Str.all (λ c, (nat_of_ascii c <? 128)%nat) url = true →
     isascii netloc = true)
  ∧ (Str.contains "/" url = false → netloc = "").
Proof.
  unfold split_netloc.
  destruct (String.eqb (Str.take 2 url) "//") eqn:Heq; last first.
  { intros [= <- <-]. by split_and!. }
  pose proof (splitnetloc_within url 2) as Hin.
  pose proof (splitnetloc_netloc url 2) as Hno.
  assert (Str.all (λ c, (nat_of_ascii c <? 128)%nat) url = true →
          isascii (_splitnetloc url 2).1 = true) as Hascii.
  { intros Hall. unfold _splitnetloc. cbn [fst]. by apply all_take, all_drop. }
  destruct (_splitnetloc url 2) as [nl rest_]. cbn [fst] in *.
  repeat case_match; try done. intros [= <- <-]. split_and!; try done.
  intros Hslash. exfalso. apply String.eqb_eq in Heq.
  assert (Str.contains "/" url = true); [|congruence].
  eapply contains_take. by rewrite Heq.
Qed.

Lemma split_netloc_inl url e :
  split_netloc chk url = inl e →
  e = ValueError
  ∧ Str.contains "[" url || Str.contains "]" url = true
  ∧ Str.contains "/" url = true.
Proof.
  unfold split_netloc.
  destruct (String.eqb (Str.take 2 url) "//") eqn:Heq; [|done].
  assert (Str.contains "/" url = true) as Hslash.
  { apply String.eqb_eq in Heq. eapply contains_take. by rewrite Heq. }
  pose proof (splitnetloc_within url 2) as Hin.
  destruct (_splitnetloc url 2) as [nl rest_]. cbn [fst] in Hin.
  destruct (Str.contains "[" nl) eqn:Hopen;
    destruct (Str.contains "]" nl) eqn:Hclose; cbn [andb orb negb];
    try (intros [= <-]; split_and!; [done| |done]);
    rewrite ?(Hin _ Hopen), ?(Hin _ Hclose), ?orb_true_r; try done.
  destruct (_check_bracketed_netloc chk nl); [done|]. by intros [= <-].
Qed.

Lemma checknetloc_inl netloc e :
  _checknetloc chk netloc = inl e → e = ValueError ∧ isascii netloc = false.
Proof.
  unfold _checknetloc. destruct (isascii netloc); [by rewrite orb_true_r|].
  destruct (String.eqb netloc ""); [done|]. cbn [orb].
  repeat case_match; try done. by intros [= <-].
Qed.

Lemma prepared_ascii url n :
  isascii url = true →
  isascii (Str.drop n
             (remove_unsafe (Str.lstrip _WHATWG_C0_CONTROL_OR_SPACE url)))
  = true.
Proof. intros Hascii. by apply all_drop, all_filter, all_lstrip. Qed.

Lemma urlsplit_netloc_no_delimiter url parsed c :
  urlsplit chk url = inr parsed → Str.contains c "/?#" = true →
  Str.contains c (netloc parsed) = false.
Proof.
  destruct (urlsplit_unfold url) as (n & sch & ->).
  destruct (split_netloc chk _) as [e|[nl tail]] eqn:Hsplit; [done|].
  cbn [mbind exn_bind].
  destruct (_checknetloc chk nl); [done|]. cbn [mbind exn_bind].
  intros [= <-]. cbn [netloc].
  by apply (split_netloc_inr _ _ _ Hsplit).
Qed.

Lemma urlsplit_error url e :
  urlsplit chk url = inl e →
  e = ValueError
  ∧ Str.contains "[" url || Str.contains "]" url || negb (isascii url) = true.
Proof.
  destruct (urlsplit_unfold url) as (n & sch & ->).
  destruct (split_netloc chk _) as [e'|[nl tail]] eqn:Hsplit;
    cbn [mbind exn_bind].
  - intros [= <-]. destruct (split_netloc_inl _ _ Hsplit) as (-> & Hbr & _).
    split; [done|]. apply orb_true_iff. left.
    apply orb_true_iff in Hbr as [Hbr|Hbr];
      apply (prepared_source url n) in Hbr; by rewrite Hbr, ?orb_true_r.
  - destruct (_checknetloc chk nl) as [e'|[]] eqn:Hcheck; [|done].
    cbn [mbind exn_bind]. intros [= <-].
    destruct (checknetloc_inl _ _ Hcheck) as [-> Hnl]. split; [done|].
    destruct (isascii url) eqn:Hurl; [|by rewrite orb_true_r].
    exfalso.
    destruct (split_netloc_inr _ _ _ Hsplit) as (_ & _ & Hascii & _).
    rewrite Hascii in Hnl; [done|]. by apply prepared_ascii.
Qed.

Lemma urlsplit_no_slash url :
  Str.contains "/" url = false →
  ∃ sch tail, urlsplit chk url = inr (mkParseResult sch "" tail).
Proof.
  intros Hno. destruct (urlsplit_unfold url) as (n & sch & ->).
  destruct (split_netloc chk _) as [e|[nl tail]] eqn:Hsplit.
  - exfalso. destruct (split_netloc_inl _ _ Hsplit) as (_ & _ & Hyes).
    apply (prepared_source url n) in Hyes. congruence.
  - destruct (split_netloc_inr _ _ _ Hsplit) as (_ & _ & _ & Hempty).
    rewrite Hempty; [by eauto|].
    apply not_true_is_false. intros Hyes.
    apply (prepared_source url n) in Hyes. congruence.
Qed.

(** X3: a URL without any ["/"] has the empty domain. *)
Theorem X3_no_slash_no_domain url :
  Str.contains "/" url = false → get_domain chk url = "".
Proof.
  intros Hno. unfold get_domain, urlparse.
  by destruct (urlsplit_no_slash url Hno) as (sch & tail & ->).
Qed.

(** X4: when the URL parses, its domain holds none of ["/"], ["?"] and
    ["#"]; the URL fails to parse only with [ValueError] and only when it
    holds a bracket or a character that is not ASCII, and is then its own
    domain. *)
Theorem X4_domain_characters url :
  (∃ parsed,
     urlparse chk url = inr parsed
     ∧ Str.contains "/" (get_domain chk url) = false
     ∧ Str.contains "?" (get_domain chk url) = false
     ∧ Str.contains "#" (get_domain chk url) = false)
  ∨ (urlparse chk url = inl ValueError
     ∧ get_domain chk url = url
     ∧ Str.contains "[" url || Str.contains "]" url || negb (isascii url)
       = true).
Proof.
  unfold get_domain, urlparse.
  destruct (urlsplit chk url) as [e|parsed] eqn:Hsplit.
  - right. by destruct (urlsplit_error _ _ Hsplit) as [-> ?].
  - left. exists parsed. split; [done|].
    assert (∀ c, Str.contains c "/?#" = true →
                 Str.contains c (Str.replace "www." "" (netloc parsed)) = false)
      as Hno.
    { intros c Hc. apply not_true_is_false. intros Hin.
      apply contains_replace_from in Hin.
      by rewrite (urlsplit_netloc_no_delimiter _ _ _ Hsplit Hc) in Hin. }
    split_and!; by apply Hno.
Qed.

End DomainCharacters.

(** ** The position indices: keys, sizes and ranks *)

Section IndexFacts.

Context {A : Type}.
Implicit Types (key : A → string) (l : list A) (k : string).

Lemma last_index_fmap key k l :
  last_index key k l = last_index id k (key <$> l).
Proof.
  induction l as [|x l IH]; [done|]. cbn [last_index fmap list_fmap].
  fold (fmap (M := list) key l). by rewrite IH.
Qed.

Lemma last_index_is_Some key k l :
  is_Some (last_index key k l) ↔ ∃ x, x ∈ l ∧ key x = k.
Proof.
  split.
  - intros [j Hj]. apply last_index_Some in Hj as (x & Hx & Hk & _).
    exists x. split; [by eapply list_elem_of_lookup_2|done].
  - intros (x & [j Hj]%list_elem_of_lookup_1 & Hk).
    destruct (last_index key k l) as [j'|] eqn:E; [by eexists|].
    exfalso. by eapply (proj1 (last_index_None key k l)).
Qed.

Lemma last_index_unique key l i x :
  NoDup (key <$> l) → l !! i = Some x → last_index key (key x) l = Some i.
Proof.
  intros Hnodup Hx. apply last_index_Some. exists x. split_and!; [done..|].
  intros j y Hlt Hy Heq.
  assert (i = j); [|lia].
  eapply (NoDup_lookup (key <$> l) _ _ (key x)); [done|..];
    rewrite list_lookup_fmap; [by rewrite Hx|rewrite Hy; simpl; by rewrite Heq].
Qed.

End IndexFacts.

Lemma position_index_keys (key : SearchResult → string) organic k :
  k ∈ dom (position_index key organic) ↔ ∃ x, x ∈ organic ∧ key x = k.
Proof.
  rewrite elem_of_dom, position_index_lookup, fmap_is_Some.
  apply last_index_is_Some.
Qed.

Lemma position_index_range (key : SearchResult → string) organic k p :
  position_index key organic !! k = Some p →
  (1 ≤ p ≤ Z.of_nat (length organic))%Z.
Proof.
  intros (j & x & -> & Hx & _)%position_index_last.
  apply lookup_lt_Some in Hx. lia.
Qed.

Lemma position_index_fmap (key : SearchResult → string) l l' :
  key <$> l = key <$> l' → position_index key l = position_index key l'.
Proof.
  intros Heq. apply map_eq. intros k.
  by rewrite !position_index_lookup, !(last_index_fmap key), Heq.
Qed.

Lemma size_add_singleton (x : string) (X : gset string) :
  (size ({[x]} ∪ X) ≤ S (size X))%nat.
Proof.
  rewrite size_union_alt, size_singleton.
  assert (size (X ∖ {[x]}) ≤ size X)%nat; [|lia].
  apply subseteq_size. set_solver.
Qed.

Lemma size_list_to_set_fmap (g : string → string) (ks : list string) :
  (size (list_to_set (g <$> ks) : gset string)
   ≤ size (list_to_set ks : gset string))%nat.
Proof.
  induction ks as [|k ks IH]; [done|]. cbn [fmap list_fmap list_to_set].
  fold (fmap (M := list) g ks).
  destruct (decide (k ∈ ks)) as [Hin|Hnotin].
  - assert ({[k]} ∪ list_to_set ks = (list_to_set ks : gset string)) as ->
      by set_solver.
    assert ({[g k]} ∪ list_to_set (g <$> ks)
            = (list_to_set (g <$> ks) : gset string)) as ->; [|done].
    apply (list_elem_of_fmap_2 g) in Hin. set_solver.
  - rewrite (size_union {[k]}), size_singleton by set_solver.
    pose proof (size_add_singleton (g k) (list_to_set (g <$> ks))). lia.
Qed.

Lemma position_index_dom (key : SearchResult → string) organic :
  dom (position_index key organic) = list_to_set (key <$> organic).
Proof.
  apply set_eq. intros k.
  rewrite position_index_keys, elem_of_list_to_set, list_elem_of_fmap.
  naive_solver.
Qed.

Lemma size_list_to_set_length (ks : list string) :
  (size (list_to_set ks : gset string) ≤ length ks)%nat.
Proof.
  induction ks as [|k ks IH]; [done|]. cbn [list_to_set length].
  pose proof (size_add_singleton k (list_to_set ks)). lia.
Qed.

(** ** Rational arithmetic of the ratios, continued *)

Lemma percent_100_iff (c m : Z) :
  (0 < m)%Z →
  (inject_Z c / inject_Z m * inject_Z 100 == 100)%Q ↔ c = m.
Proof.
  intros Hm. destruct m as [|m|m]; try lia.
  unfold Qeq, Qdiv, Qmult, Qinv, inject_Z. simpl. lia.
Qed.

Lemma percent_0_iff (c m : Z) :
  (0 < m)%Z →
  (inject_Z c / inject_Z m * inject_Z 100 == 0)%Q ↔ c = 0%Z.
Proof.
  intros Hm. destruct m as [|m|m]; try lia.
  unfold Qeq, Qdiv, Qmult, Qinv, inject_Z. simpl. lia.
Qed.

Lemma sum_Z_bounds (xs : list Z) (b : Z) :
  (∀ x, x ∈ xs → (0 ≤ x ≤ b)%Z) →
  (0 ≤ sum_Z xs ≤ Z.of_nat (length xs) * b)%Z.
Proof.
  induction xs as [|x xs IH]; intros Hxs; simpl; [lia|].
  pose proof (Hxs x (list_elem_of_here _ _)).
  assert (0 ≤ sum_Z xs ≤ Z.of_nat (length xs) * b)%Z
    by (apply IH; intros y Hy; apply Hxs; by right).
  unfold sum_Z in *. lia.
Qed.

Lemma mean_bounds (s n b : Z) :
  (0 < n)%Z → (0 ≤ s ≤ n * b)%Z →
  (0 <= inject_Z s / inject_Z n)%Q ∧ (inject_Z s / inject_Z n <= inject_Z b)%Q.
Proof.
  intros Hn [Hs Hb].
  assert (0 < inject_Z n)%Q as Hpos.
  { change 0%Q with (inject_Z 0). by rewrite <-Zlt_Qlt. }
  split.
  - apply Qle_shift_div_l; [done|]. rewrite Qmult_0_l.
    change 0%Q with (inject_Z 0). by rewrite <-Zle_Qle.
  - apply Qle_shift_div_r; [done|].
    rewrite <-inject_Z_mult, <-Zle_Qle. lia.
Qed.

(** ** The report, continued *)

Section ReportFacts.

Variable chk : Library.

Ltac report_divisor H :=
  match type of H with
  | context [decide (?m = 0%Z)] =>
      destruct (decide (m = 0%Z)) as [?|?]; [discriminate H|];
      cbn [mbind exn_bind] in H
  end.

Ltac report_fields H :=
  unfold analyze_serp_similarity, true_div in H;
  report_divisor H; report_divisor H;
  simplify_eq;
  cbn [common_domains common_urls domain_similarity
    url_similarity position_differences avg_position_diff position_changes
    domains1 domains2 total_results1 total_results2] in *.

(** X5: the outcome depends on the inputs only through the lists of links
    under ['organic']: titles, snippets and all other keys are never read. *)
Theorem X5_only_links_matter results1 results2 results1' results2' :
  link <$> organic results1 = link <$> organic results1' →
  link <$> organic results2 = link <$> organic results2' →
  analyze_serp_similarity chk results1 results2
  = analyze_serp_similarity chk results1' results2'.
Proof.
  intros H1 H2.
  assert (∀ r r', link <$> organic r = link <$> organic r' →
            domain_index chk (organic r) = domain_index chk (organic r')
            ∧ url_index (organic r) = url_index (organic r')
            ∧ length (organic r) = length (organic r')) as Hsame.
  { intros r r' Hlinks. split_and!.
    - apply position_index_fmap.
      by rewrite !(list_fmap_compose link (get_domain chk)), Hlinks.
    - by apply position_index_fmap.
    - by rewrite <-(length_fmap link), Hlinks, length_fmap. }
  destruct (Hsame _ _ H1) as (Hd1 & Hu1 & Hl1).
  destruct (Hsame _ _ H2) as (Hd2 & Hu2 & Hl2).
  unfold analyze_serp_similarity.
  by rewrite Hd1, Hd2, Hu1, Hu2, Hl1, Hl2.
Qed.

Lemma common_domains_spec results1 results2 rep d :
  analyze_serp_similarity chk results1 results2 = inr rep →
  d ∈ common_domains rep
  ↔ (∃ x, x ∈ organic results1 ∧ get_domain chk (link x) = d)
    ∧ (∃ y, y ∈ organic results2 ∧ get_domain chk (link y) = d).
Proof.
  intros Hrep. report_fields Hrep. unfold domain_index, url_index.
  by rewrite elem_of_intersection, !position_index_keys.
Qed.

Lemma common_urls_spec results1 results2 rep u :
  analyze_serp_similarity chk results1 results2 = inr rep →
  u ∈ common_urls rep
  ↔ (∃ x, x ∈ organic results1 ∧ link x = u)
    ∧ (∃ y, y ∈ organic results2 ∧ link y = u).
Proof.
  intros Hrep. report_fields Hrep. unfold domain_index, url_index.
  by rewrite elem_of_intersection, !position_index_keys.
Qed.

Lemma index_size_pos results1 results2 rep :
  analyze_serp_similarity chk results1 results2 = inr rep →
  (0 < Z.max (len (domains1 rep)) (len (domains2 rep)))%Z.
Proof.
  intros Hrep. report_fields Hrep.
  pose proof (len_nonneg (domain_index chk (organic results1))).
  pose proof (len_nonneg (domain_index chk (organic results2))). lia.
Qed.

Lemma domain_similarity_eq results1 results2 rep :
  analyze_serp_similarity chk results1 results2 = inr rep →
  domain_similarity rep
  = (inject_Z (len (common_domains rep))
     / inject_Z (Z.max (len (domains1 rep)) (len (domains2 rep)))
     * inject_Z 100)%Q.
Proof. intros Hrep. by report_fields Hrep. Qed.

(** X6: when no result of the first list has the domain of a result of the
    second list, a report is produced as soon as one list is non-empty, and
    it has no common domain or URL, both ratios 0, no position difference,
    average 0 and no position change. *)
Theorem X6_nothing_shared results1 results2 :
  organic results1 ≠ [] ∨ organic results2 ≠ [] →
  (∀ x y, x ∈ organic results1 → y ∈ organic results2 →
          get_domain chk (link x) ≠ get_domain chk (link y)) →
  ∃ rep,
    analyze_serp_similarity chk results1 results2 = inr rep
    ∧ common_domains rep = ∅ ∧ common_urls rep = ∅
    ∧ (domain_similarity rep == 0)%Q ∧ (url_similarity rep == 0)%Q
    ∧ position_differences rep = ∅
    ∧ avg_position_diff rep = Finite 0
    ∧ position_changes rep = ∅.
Proof.
  intros Hne Hdisjoint.
  destruct (analyze_returns chk _ _ Hne) as [rep Hrep]. exists rep.
  assert (common_domains rep = ∅) as Hcd.
  { apply set_eq. intros d. rewrite (common_domains_spec _ _ _ _ Hrep).
    split; [|set_solver]. intros [(x & Hx & <-) (y & Hy & Heq)].
    by destruct (Hdisjoint x y). }
  assert (common_urls rep = ∅) as Hcu.
  { apply set_eq. intros u. rewrite (common_urls_spec _ _ _ _ Hrep).
    split; [|set_solver]. intros [(x & Hx & <-) (y & Hy & Heq)].
    destruct (Hdisjoint x y); [done..|by rewrite Heq]. }
  split; [done|]. report_fields Hrep. rewrite Hcd, Hcu in *.
  rewrite (proj2 (comprehension_empty _ ∅) eq_refl).
  split_and!; try done; by apply percent_0_iff; [lia|].
Qed.

Lemma ratio_extremes (D1 D2 : gset string) :
  (0 < Z.max (len D1) (len D2))%Z →
  let ratio :=
    (inject_Z (len (D1 ∩ D2)) / inject_Z (Z.max (len D1) (len D2))
     * inject_Z 100)%Q in
  ((ratio == 100)%Q ↔ D1 = D2) ∧ ((ratio == 0)%Q ↔ D1 ∩ D2 = ∅).
Proof.
  intros Hpos ratio. unfold ratio.
  rewrite percent_100_iff, percent_0_iff by done. unfold len in *.
  split.
  - split.
    + intros Hsize.
      assert (D1 ∩ D2 = D1) as HD1.
      { apply set_subseteq_size_eq; [set_solver|lia]. }
      assert (D1 ∩ D2 = D2) as HD2.
      { apply set_subseteq_size_eq; [set_solver|lia]. }
      congruence.
    + intros <-. rewrite (idemp_L (∩)). lia.
  - split.
    + intros Hsize. apply (leibniz_equiv (D1 ∩ D2) ∅), size_empty_iff. lia.
    + intros ->. by rewrite size_empty.
Qed.

Lemma similarity_extremes results1 results2 rep :
  analyze_serp_similarity chk results1 results2 = inr rep →
  ((domain_similarity rep == 100)%Q
   ↔ dom (domains1 rep) = dom (domains2 rep))
  ∧ ((domain_similarity rep == 0)%Q ↔ common_domains rep = ∅)
  ∧ ((url_similarity rep == 100)%Q
     ↔ dom (url_index (organic results1)) = dom (url_index (organic results2)))
  ∧ ((url_similarity rep == 0)%Q ↔ common_urls rep = ∅).
Proof.
  intros Hrep. report_fields Hrep.
  pose proof (len_nonneg (domain_index chk (organic results1))).
  pose proof (len_nonneg (domain_index chk (organic results2))).
  pose proof (len_nonneg (url_index (organic results1))).
  pose proof (len_nonneg (url_index (organic results2))).
  unfold len in *.
  destruct (ratio_extremes (dom (domain_index chk (organic results1)))
              (dom (domain_index chk (organic results2)))) as [Hd100 Hd0].
  { unfold len. rewrite !size_dom. lia. }
  destruct (ratio_extremes (dom (url_index (organic results1)))
              (dom (url_index (organic results2)))) as [Hu100 Hu0].
  { unfold len. rewrite !size_dom. lia. }
  unfold len in *. rewrite !size_dom in *. by split_and!.
Qed.

(** X7: a similarity ratio of a report is 100 exactly when both result
    lists have the same set of domains (resp. URLs), and 0 exactly when
    they have no domain (resp. URL) in common. *)
Theorem X7_full_and_zero_similarity results1 results2 rep :
  analyze_serp_similarity chk results1 results2 = inr rep →
  ((domain_similarity rep == 100)%Q
   ↔ dom (domains1 rep) = dom (domains2 rep))
  ∧ ((domain_similarity rep == 0)%Q ↔ common_domains rep = ∅)
  ∧ ((url_similarity rep == 100)%Q
     ↔ ∀ u, (∃ x, x ∈ organic results1 ∧ link x = u)
            ↔ (∃ y, y ∈ organic results2 ∧ link y = u))
  ∧ ((url_similarity rep == 0)%Q ↔ common_urls rep = ∅).
Proof.
  intros Hrep.
  destruct (similarity_extremes _ _ _ Hrep) as (Hd100 & Hd0 & Hu100 & Hu0).
  split_and!; [done..| |done]. rewrite Hu100, set_eq. unfold url_index.
  by setoid_rewrite position_index_keys.
Qed.

(** X8: every URL common to both lists contributes its domain to the
    common domains. *)
Theorem X8_common_url_common_domain results1 results2 rep u :
  analyze_serp_similarity chk results1 results2 = inr rep →
  u ∈ common_urls rep → get_domain chk u ∈ common_domains rep.
Proof.
  intros Hrep.
  rewrite (common_urls_spec _ _ _ _ Hrep), (common_domains_spec _ _ _ _ Hrep).
  intros [(x & Hx & <-) (y & Hy & Heq)]. split; [by exists x|].
  exists y. by rewrite Heq.
Qed.

Lemma report_positions results1 results2 rep :
  analyze_serp_similarity chk results1 results2 = inr rep →
  (∀ d p, domains1 rep !! d = Some p → (1 ≤ p ≤ total_results1 rep)%Z)
  ∧ (∀ d p, domains2 rep !! d = Some p → (1 ≤ p ≤ total_results2 rep)%Z).
Proof.
  intros Hrep. report_fields Hrep.
  split; intros d p Hp; by eapply position_index_range.
Qed.

Lemma position_differences_lookup results1 results2 rep d v :
  analyze_serp_similarity chk results1 results2 = inr rep →
  position_differences rep !! d = Some v
  ↔ ∃ p1 p2, domains1 rep !! d = Some p1 ∧ domains2 rep !! d = Some p2
             ∧ v = Z.abs (p1 - p2).
Proof.
  intros Hrep. report_fields Hrep.
  rewrite lookup_comprehension, common_lookup. split.
  - intros [(p1 & p2 & H1 & H2 & <- & <-) ->]. by eauto.
  - intros (p1 & p2 & H1 & H2 & ->).
    rewrite !lookup_total_alt, H1, H2. simpl. split; [|done].
    by exists p1, p2.
Qed.

(** X9: every position held by a report is a rank in its list, between 1
    and the number of results of that list, and every position difference
    lies between 0 and the larger number of results minus 1. *)
Theorem X9_positions_in_range results1 results2 rep :
  analyze_serp_similarity chk results1 results2 = inr rep →
  (∀ d p, domains1 rep !! d = Some p → (1 ≤ p ≤ total_results1 rep)%Z)
  ∧ (∀ d p, domains2 rep !! d = Some p → (1 ≤ p ≤ total_results2 rep)%Z)
  ∧ (∀ d v, position_differences rep !! d = Some v →
            (0 ≤ v ≤ Z.max (total_results1 rep) (total_results2 rep) - 1)%Z).
Proof.
  intros Hrep. destruct (report_positions _ _ _ Hrep) as [Hp1 Hp2].
  split_and!; [done..|]. intros d v Hv.
  apply (position_differences_lookup _ _ _ _ _ Hrep)
    in Hv as (p1 & p2 & H1 & H2 & ->).
  specialize (Hp1 _ _ H1). specialize (Hp2 _ _ H2). lia.
Qed.

(** X10: an index has at most one key per result, the domain index at most
    as many keys as the URL index, and a report at most as many common
    domains as either list has results. *)
Theorem X10_key_counts results1 results2 rep :
  analyze_serp_similarity chk results1 results2 = inr rep →
  (len (domains1 rep) ≤ len (url_index (organic results1)))%Z
  ∧ (len (url_index (organic results1)) ≤ total_results1 rep)%Z
  ∧ (len (domains2 rep) ≤ len (url_index (organic results2)))%Z
  ∧ (len (url_index (organic results2)) ≤ total_results2 rep)%Z
  ∧ (len (common_domains rep)
     ≤ Z.min (total_results1 rep) (total_results2 rep))%Z.
Proof.
  intros Hrep.
  assert (∀ l, (size (domain_index chk l) ≤ size (url_index l))%nat
               ∧ (size (url_index l) ≤ length l)%nat) as Hsizes.
  { intros l. unfold domain_index, url_index.
    rewrite <-!(size_dom (D := gset string)), !position_index_dom. split.
    - rewrite (list_fmap_compose link (get_domain chk)).
      apply size_list_to_set_fmap.
    - etrans; [apply size_list_to_set_length|]. by rewrite length_fmap. }
  destruct (Hsizes (organic results1)) as [Hd1 Hu1].
  destruct (Hsizes (organic results2)) as [Hd2 Hu2].
  report_fields Hrep. unfold len.
  assert (size (dom (domain_index chk (organic results1))
                ∩ dom (domain_index chk (organic results2)))
          ≤ size (domain_index chk (organic results1)))%nat.
  { rewrite <-(size_dom (D := gset string)).
    apply subseteq_size, intersection_subseteq_l. }
  assert (size (dom (domain_index chk (organic results1))
                ∩ dom (domain_index chk (organic results2)))
          ≤ size (domain_index chk (organic results2)))%nat.
  { rewrite <-(size_dom (D := gset string)).
    apply subseteq_size, intersection_subseteq_r. }
  lia.
Qed.

(** X11: two lists of at most three results each never give a position
    change. *)
Theorem X11_short_lists_no_change results1 results2 rep :
  analyze_serp_similarity chk results1 results2 = inr rep →
  (total_results1 rep ≤ 3)%Z → (total_results2 rep ≤ 3)%Z →
  position_changes rep = ∅.
Proof.
  intros Hrep Ht1 Ht2. destruct (report_positions _ _ _ Hrep) as [Hp1 Hp2].
  apply map_eq. intros d. rewrite lookup_empty.
  apply eq_None_not_Some. intros [c Hc].
  apply (position_changes_lookup chk _ _ _ _ _ Hrep)
    in Hc as (p1 & p2 & H1 & H2 & Hgt & _).
  specialize (Hp1 _ _ H1). specialize (Hp2 _ _ H2). lia.
Qed.

(** X12: exchanging the two arguments leaves both similarity ratios, the
    position differences and their average unchanged, and exchanges the two
    indices and the two result counts. *)
Theorem X12_swap_keeps_metrics results1 results2 rep :
  analyze_serp_similarity chk results1 results2 = inr rep →
  ∃ rep',
    analyze_serp_similarity chk results2 results1 = inr rep'
    ∧ domain_similarity rep' = domain_similarity rep
    ∧ url_similarity rep' = url_similarity rep
    ∧ position_differences rep' = position_differences rep
    ∧ avg_position_diff rep' = avg_position_diff rep
    ∧ domains1 rep' = domains2 rep ∧ domains2 rep' = domains1 rep
    ∧ total_results1 rep' = total_results2 rep
    ∧ total_results2 rep' = total_results1 rep.
Proof.
  intros Hrep.
  destruct (analyze_swap chk _ _ _ Hrep) as (rep' & Hrep' & _).
  exists rep'. split; [done|].
  assert (position_differences rep' = position_differences rep) as Hpd.
  { apply map_eq. intros d. apply option_eq. intros v.
    rewrite (position_differences_lookup _ _ _ _ _ Hrep),
      (position_differences_lookup _ _ _ _ _ Hrep').
    report_fields Hrep. report_fields Hrep'. split.
    - intros (p1 & p2 & H1 & H2 & ->). exists p2, p1.
      split_and!; [done..|lia].
    - intros (p1 & p2 & H1 & H2 & ->). exists p2, p1.
      split_and!; [done..|lia]. }
  assert (avg_position_diff rep' = avg_position_diff rep) as Havg.
  { revert Hpd. clear -Hrep Hrep'. report_fields Hrep. report_fields Hrep'.
    by intros ->. }
  split_and!; [| |done|done|..]; clear Hpd Havg;
    report_fields Hrep; report_fields Hrep'; try done.
  - by rewrite (comm_L (∩)), Z.max_comm.
  - by rewrite (comm_L (∩)), Z.max_comm.
Qed.

(** X13: the position differences are keyed by exactly the common
    domains; a position change exists exactly for the domains whose
    difference exceeds 2, and its [diff] has that difference as absolute
    value, hence is never 0. *)
Theorem X13_changes_within_differences results1 results2 rep :
  analyze_serp_similarity chk results1 results2 = inr rep →
  dom (position_differences rep) = common_domains rep
  ∧ (∀ d c, position_changes rep !! d = Some c →
            position_differences rep !! d = Some (Z.abs (diff c))
            ∧ (3 ≤ Z.abs (diff c))%Z)
  ∧ (∀ d v, position_differences rep !! d = Some v →
            (v > 2)%Z ↔ is_Some (position_changes rep !! d)).
Proof.
  intros Hrep. split_and!.
  - report_fields Hrep. apply dom_comprehension.
  - intros d c Hc.
    apply (position_changes_lookup chk _ _ _ _ _ Hrep)
      in Hc as (p1 & p2 & H1 & H2 & Hgt & ->). cbn [diff].
    split; [|lia]. apply (position_differences_lookup _ _ _ _ _ Hrep).
    exists p1, p2. split_and!; [done..|lia].
  - intros d v Hv.
    apply (position_differences_lookup _ _ _ _ _ Hrep)
      in Hv as (p1 & p2 & H1 & H2 & ->).
    unfold is_Some.
    setoid_rewrite (position_changes_lookup chk _ _ _ _ _ Hrep). split.
    + intros Hgt. eexists _, p1, p2. split_and!; [done..|lia|done].
    + intros (c & q1 & q2 & Hq1 & Hq2 & Hgt & _). simplify_eq. lia.
Qed.

Lemma report_nonempty results1 results2 rep :
  analyze_serp_similarity chk results1 results2 = inr rep →
  (1 ≤ Z.max (total_results1 rep) (total_results2 rep))%Z.
Proof.
  intros Hrep.
  destruct (decide (organic results1 = [])) as [E1|Hne1];
    [destruct (decide (organic results2 = [])) as [E2|Hne2]|].
  - by rewrite (analyze_raises chk _ _ E1 E2) in Hrep.
  - report_fields Hrep. destruct (organic results2); [done|]. simpl. lia.
  - report_fields Hrep. destruct (organic results1); [done|]. simpl. lia.
Qed.

Lemma avg_position_diff_eq results1 results2 rep :
  analyze_serp_similarity chk results1 results2 = inr rep →
  avg_position_diff rep
  = if decide (position_differences rep = ∅) then Finite 0
    else np_mean (values (position_differences rep)).
Proof. intros Hrep. by report_fields Hrep. Qed.

(** X14: the average position difference of a report is a number, never
    the not-a-number of an empty mean, and lies between 0 and the larger
    number of results minus 1. *)
Theorem X14_average_bounds results1 results2 rep :
  analyze_serp_similarity chk results1 results2 = inr rep →
  ∃ q, avg_position_diff rep = Finite q
       ∧ (0 <= q)%Q
       ∧ (q <= inject_Z (Z.max (total_results1 rep) (total_results2 rep) - 1))%Q.
Proof.
  intros Hrep. pose proof (report_nonempty _ _ _ Hrep) as Hone.
  set (b := (Z.max (total_results1 rep) (total_results2 rep) - 1)%Z) in *.
  assert (0 <= inject_Z b)%Q as Hb.
  { change 0%Q with (inject_Z 0). rewrite <-Zle_Qle. lia. }
  rewrite (avg_position_diff_eq _ _ _ Hrep).
  destruct (decide (position_differences rep = ∅)) as [_|Hne].
  { exists 0%Q. by split_and!. }
  assert (0 < length (values (position_differences rep)))%nat as Hlen.
  { rewrite length_values. apply map_size_non_empty_iff in Hne. lia. }
  rewrite (np_mean_nonempty _ Hlen). eexists. split; [done|].
  apply mean_bounds; [lia|]. apply sum_Z_bounds.
  intros v [[d v'] [-> Hd]]%list_elem_of_fmap.
  apply elem_of_map_to_list in Hd. cbn [snd].
  destruct (proj1 (position_differences_lookup _ _ _ _ _ Hrep) Hd)
    as (p1 & p2 & H1 & H2 & ->).
  destruct (report_positions _ _ _ Hrep) as [Hp1 Hp2].
  specialize (Hp1 _ _ H1). specialize (Hp2 _ _ H2). unfold b. lia.
Qed.

(** X15: in a list whose results all have different domains, every result
    is indexed at its own rank, by domain and by URL. *)
Theorem X15_distinct_domains_keep_rank organic i x :
  NoDup ((λ result, get_domain chk (link result)) <$> organic) →
  organic !! i = Some x →
  domain_index chk organic !! get_domain chk (link x)
  = Some (Z.of_nat i + 1)%Z
  ∧ url_index organic !! link x = Some (Z.of_nat i + 1)%Z.
Proof.
  intros Hnodup Hx. unfold domain_index, url_index.
  rewrite !position_index_lookup. split.
  - by rewrite (last_index_unique (λ result, get_domain chk (link result))
                  organic i x Hnodup Hx).
  - rewrite (last_index_unique link organic i x); [done| |done].
    rewrite (list_fmap_compose link (get_domain chk)) in Hnodup.
    by apply NoDup_fmap_1 in Hnodup.
Qed.

(** X20: the analysis raises [ZeroDivisionError] exactly when neither
    input has an organic result, that is when for each input the
    ['organic'] key is missing or holds the empty list. *)
Theorem X20_zero_division_iff results1 results2 :
  (analyze_serp_similarity chk results1 results2 = inl ZeroDivisionError
   ↔ organic results1 = [] ∧ organic results2 = [])
  ∧ (organic results1 = [] ∧ organic results2 = []
     ↔ (results1 !! "organic" = None ∨ results1 !! "organic" = Some [])
       ∧ (results2 !! "organic" = None ∨ results2 !! "organic" = Some [])).
Proof.
  destruct (analyze_outcome chk results1 results2)
    as [(E1 & E2 & Hraise)|[rep Hrep]].
  - split.
    + by rewrite Hraise.
    + unfold organic in *.
      destruct (results1 !! "organic") as [l1|],
        (results2 !! "organic") as [l2|];
        simpl in *; subst; naive_solver.
  - split.
    + rewrite Hrep. split; [done|]. intros [E1 E2].
      by rewrite (analyze_raises chk _ _ E1 E2) in Hrep.
    + unfold organic.
      destruct (results1 !! "organic") as [l1|],
        (results2 !! "organic") as [l2|];
        simpl; naive_solver.
Qed.

(** X21: lists with the same set of URLs have the same set of domains, so
    a URL similarity of 100 comes with a domain similarity of 100; and a
    URL similarity above 0 comes with a domain similarity above 0. *)
Theorem X21_url_similarity_implies_domain_similarity results1 results2 rep :
  analyze_serp_similarity chk results1 results2 = inr rep →
  ((url_similarity rep == 100)%Q → (domain_similarity rep == 100)%Q)
  ∧ (¬ (url_similarity rep == 0)%Q → ¬ (domain_similarity rep == 0)%Q).
Proof.
  intros Hrep.
  destruct (similarity_extremes _ _ _ Hrep) as (Hd100 & Hd0 & Hu100 & Hu0).
  rewrite Hd100, Hd0, Hu100, Hu0. split.
  - intros Heq. pose proof Hrep as Hrep'. report_fields Hrep'.
    unfold domain_index, url_index in *. apply set_eq. intros d.
    rewrite !position_index_keys. rewrite set_eq in Heq.
    setoid_rewrite position_index_keys in Heq.
    split; intros (x & Hx & <-).
    + destruct (proj1 (Heq (link x))) as (y & Hy & Hxy); [by exists x|].
      exists y. by rewrite Hxy.
    + destruct (proj2 (Heq (link x))) as (y & Hy & Hxy); [by exists x|].
      exists y. by rewrite Hxy.
  - intros Hu Hd. apply Hu. apply set_eq. intros u. split; [|set_solver].
    intros Hin. rewrite (common_urls_spec _ _ _ _ Hrep) in Hin.
    destruct Hin as [(x & Hx & <-) (y & Hy & Heq)].
    assert (get_domain chk (link x) ∈ common_domains rep) as Hcommon.
    { apply (common_domains_spec _ _ _ _ Hrep). split; [by exists x|].
      exists y. by rewrite Heq. }
    rewrite Hd in Hcommon. set_solver.
Qed.

End ReportFacts.

(** ** The tables of the dashboard *)

Lemma str_length_take n (s : string) :
  String.length (Str.take n s) = Nat.min n (String.length s).
Proof.
  revert n. induction s as [|a s IH]; intros [|n]; simpl; auto.
Qed.

Section TableFacts.

Variable chk : Library.

Lemma process_results_lookup results other i row :
  process_results chk results other !! i = Some row
  ↔ ∃ x, organic results !! i = Some x
         ∧ row = {| Position := Z.of_nat i + 1;
                    Title := default "" (title x);
                    Domain := get_domain chk (link x);
                    URL := link x;
                    Status :=
                      if decide (get_domain chk (link x) ∈ dom other)
                      then "Common" else "Unique";
                    Snippet :=
                      match snippet x with
                      | Some s =>
                          if decide (s = "") then ""
                          else Str.take 150 s ++ "..."
                      | None => ""
                      end |}.
Proof.
  unfold process_results, enumerate.
  rewrite list_lookup_fmap, list_lookup_imap.
  destruct (organic results !! i) as [x|]; simpl.
  - split; [intros [= <-]; by exists x|by intros (? & [= <-] & ->)].
  - split; [done|by intros (? & ? & _)].
Qed.

Lemma report_indices results1 results2 rep :
  analyze_serp_similarity chk results1 results2 = inr rep →
  domains1 rep = domain_index chk (organic results1)
  ∧ domains2 rep = domain_index chk (organic results2)
  ∧ common_domains rep = dom (domains1 rep) ∩ dom (domains2 rep)
  ∧ total_results1 rep = Z.of_nat (length (organic results1))
  ∧ total_results2 rep = Z.of_nat (length (organic results2)).
Proof.
  intros Hrep. unfold analyze_serp_similarity, true_div in Hrep.
  repeat match type of Hrep with
         | context [decide (?m = 0%Z)] =>
             destruct (decide (m = 0%Z)) as [?|?]; [discriminate Hrep|];
             cbn [mbind exn_bind] in Hrep
         end.
  by simplify_eq.
Qed.

Lemma row_status results other row :
  row ∈ process_results chk results other →
  Domain row ∈ dom (domain_index chk (organic results))
  ∧ (Status row = "Common" ↔ Domain row ∈ dom other)
  ∧ (Status row = "Unique" ↔ Domain row ∉ dom other).
Proof.
  intros [i Hi]%list_elem_of_lookup_1.
  apply process_results_lookup in Hi as (x & Hx & ->). cbn [Domain Status].
  split.
  - unfold domain_index. apply position_index_keys. exists x.
    split; [by eapply list_elem_of_lookup_2|done].
  - case_decide; split; split; done.
Qed.

Lemma results_style_status row :
  (results_style row = replicate 6 "background-color: #dcfce7"
   ↔ Status row = "Common")
  ∧ (results_style row = replicate 6 "" ↔ Status row ≠ "Common").
Proof.
  unfold results_style. case_decide; split; split; done.
Qed.

(** X16: in the table of either query a row has status Common, and is
    highlighted, exactly when its domain is one of the report's common
    domains; every other row has status Unique and no highlight. *)
Theorem X16_status_marks_common_domains results1 results2 rep :
  analyze_serp_similarity chk results1 results2 = inr rep →
  ∀ row,
    row ∈ process_results chk results1 (domains2 rep)
    ∨ row ∈ process_results chk results2 (domains1 rep) →
    (Status row = "Common" ↔ Domain row ∈ common_domains rep)
    ∧ (Status row = "Unique" ↔ Domain row ∉ common_domains rep)
    ∧ (results_style row = replicate 6 "background-color: #dcfce7"
       ↔ Domain row ∈ common_domains rep)
    ∧ (results_style row = replicate 6 "" ↔ Domain row ∉ common_domains rep).
Proof.
  intros Hrep row Hrow.
  destruct (report_indices _ _ _ Hrep) as (Hd1 & Hd2 & Hcd & _).
  destruct (results_style_status row) as [Hgreen Hplain].
  rewrite Hgreen, Hplain, Hcd, elem_of_intersection.
  destruct Hrow as [Hrow|Hrow];
    destruct (row_status _ _ _ Hrow) as (Hown & Hcommon & Hunique);
    rewrite <-?Hd1, <-?Hd2 in Hown; rewrite Hcommon, Hunique;
    split_and!; try tauto.
Qed.

(** X17: the snippet shown in a row is empty exactly when the result has no
    snippet or an empty one; otherwise it is the first 150 characters of the
    result's snippet followed by three dots, also when the snippet is short;
    it is never longer than 153 characters. *)
Theorem X17_snippet_column results other i row x :
  process_results chk results other !! i = Some row →
  organic results !! i = Some x →
  (String.length (Snippet row) ≤ 153)%nat
  ∧ (Snippet row = "" ↔ snippet x = None ∨ snippet x = Some "")
  ∧ (∀ s, snippet x = Some s → s ≠ "" →
          Snippet row = Str.take 150 s ++ "..."
          ∧ String.length (Snippet row)
            = (Nat.min 150 (String.length s) + 3)%nat).
Proof.
  intros (x' & Hx' & ->)%process_results_lookup Hx.
  rewrite Hx in Hx'. injection Hx' as <-. cbn [Snippet].
  assert (∀ s, String.length (Str.take 150 s ++ "...")
               = (Nat.min 150 (String.length s) + 3)%nat) as Hlen.
  { intros s. by rewrite str_length_app, str_length_take. }
  destruct (snippet x) as [s|]; [|split_and!; [simpl; lia|naive_solver|done]].
  destruct (decide (s = "")) as [->|Hs].
  - split_and!; [simpl; lia|naive_solver|]. by intros s [= <-].
  - split_and!.
    + rewrite Hlen. lia.
    + split.
      * intros Hempty. pose proof (Hlen s) as Hl. rewrite Hempty in Hl.
        simpl in Hl. lia.
      * intros [?|[= ?]]; done.
    + intros s' [= <-] _. by rewrite Hlen.
Qed.

(** X18: the table of the first query has one row per result, numbered
    from 1 in list order; the position the report holds for a row's domain
    is never smaller than the row's number, and equals it exactly when no
    later row has the same domain. *)
Theorem X18_row_number_and_index_position results1 results2 rep other :
  analyze_serp_similarity chk results1 results2 = inr rep →
  Z.of_nat (length (process_results chk results1 other)) = total_results1 rep
  ∧ ∀ i row,
      process_results chk results1 other !! i = Some row →
      Position row = (Z.of_nat i + 1)%Z
      ∧ ∃ q, domains1 rep !! Domain row = Some q
             ∧ (Position row ≤ q ≤ total_results1 rep)%Z
             ∧ (Position row = q
                ↔ ∀ j row', (i < j)%nat →
                    process_results chk results1 other !! j = Some row' →
                    Domain row' ≠ Domain row).
Proof.
  intros Hrep. destruct (report_indices _ _ _ Hrep) as (Hd1 & _ & _ & Ht1 & _).
  split.
  { unfold process_results, enumerate.
    by rewrite length_fmap, length_imap, Ht1. }
  intros i row (x & Hx & ->)%process_results_lookup. cbn [Position Domain].
  split; [done|]. rewrite Hd1, Ht1. unfold domain_index.
  set (key := λ result, get_domain chk (link result)).
  change (get_domain chk (link x)) with (key x).
  destruct (last_index key (key x) (organic results1)) as [j|] eqn:Hlast.
  2:{ exfalso. by eapply (proj1 (last_index_None key (key x) _) Hlast). }
  pose proof (proj1 (last_index_Some key _ _ _) Hlast)
    as (y & Hy & Hky & Hafter).
  exists (Z.of_nat j + 1)%Z. rewrite position_index_lookup, Hlast.
  split; [done|].
  assert (i ≤ j)%nat as Hij.
  { destruct (decide (i ≤ j)%nat) as [|Hgt]; [done|].
    destruct (Hafter i x); [lia|done..]. }
  apply lookup_lt_Some in Hy as Hj.
  split; [lia|]. split.
  - intros Heq j' row' Hlt (x' & Hx' & ->)%process_results_lookup.
    cbn [Domain]. apply (Hafter j' x'); [lia|done].
  - intros Hnone. assert (i = j); [|lia].
    destruct (decide (i = j)) as [|Hne]; [done|]. exfalso.
    apply (Hnone j (mkResultRow (Z.of_nat j + 1) (default "" (title y))
             (get_domain chk (link y)) (link y)
             (if decide (get_domain chk (link y) ∈ dom other)
              then "Common" else "Unique")
             (match snippet y with
              | Some s => if decide (s = "") then ""
                          else Str.take 150 s ++ "..."
              | None => ""
              end))); [lia| |done].
    apply process_results_lookup. by exists y.
Qed.

(** X19: every row of the position changes table has a change of at least
    three places; it is shown in the first colour exactly when the domain
    ranks lower in the second query (higher position number), and in the
    second colour exactly when it ranks higher. *)
Theorem X19_change_direction results1 results2 rep d c :
  analyze_serp_similarity chk results1 results2 = inr rep →
  position_changes rep !! d = Some c →
  (3 ≤ Z.abs (Change (change_row d c)))%Z
  ∧ Change (change_row d c)
    = (Position_in_Query_2 (change_row d c)
       - Position_in_Query_1 (change_row d c))%Z
  ∧ (changes_style (change_row d c) = replicate 4 "background-color: #fef9c3"
     ↔ (pos1 c < pos2 c)%Z)
  ∧ (changes_style (change_row d c) = replicate 4 "background-color: #fee2e2"
     ↔ (pos2 c < pos1 c)%Z).
Proof.
  intros Hrep Hc.
  apply (position_changes_lookup chk _ _ _ _ _ Hrep)
    in Hc as (p1 & p2 & _ & _ & Hgt & ->).
  unfold changes_style, change_row.
  cbn [Change Position_in_Query_1 Position_in_Query_2 pos1 pos2 diff].
  split_and!; [lia|done|..]; case_decide; split; try done; try lia;
    intros; exfalso; lia.
Qed.

End TableFacts.

(** ** Concrete runs of the further properties *)

Lemma scenario_report_eq :
  analyze_serp_similarity no_bracket_check scenario_A scenario_B
  = inr scenario_report.
Proof. by vm_compute. Qed.

Lemma X1_domain_ignores_scheme_and_path_witness :
  get_domain no_bracket_check ("http" ++ "://" ++ "example.com:8080" ++ "/a/b")
  = get_domain no_bracket_check ("https" ++ "://" ++ "example.com:8080" ++ "?q=1").
Proof.
  apply (X1_domain_ignores_scheme_and_path no_bracket_check
           "http" "https" "example.com:8080" "/a/b" "?q=1"); reflexivity.
Defined.

Lemma X2_domain_ignores_leading_www_witness :
  get_domain no_bracket_check ("https" ++ "://" ++ ("www." ++ "example.com") ++ "/a")
  = get_domain no_bracket_check ("https" ++ "://" ++ "example.com" ++ "/a").
Proof.
  apply (X2_domain_ignores_leading_www no_bracket_check
           "https" "example.com" "/a"); reflexivity.
Defined.

Lemma X3_no_slash_no_domain_witness :
  get_domain no_bracket_check "www.example.com" = "".
Proof.
  apply (X3_no_slash_no_domain no_bracket_check "www.example.com").
  reflexivity.
Defined.

Lemma X5_only_links_matter_witness :
  analyze_serp_similarity no_bracket_check detailed_A reversed_B
  = analyze_serp_similarity no_bracket_check reversed_A reversed_B.
Proof.
  apply (X5_only_links_matter no_bracket_check
           detailed_A reversed_B reversed_A reversed_B); by vm_compute.
Defined.

Lemma X6_nothing_shared_witness :
  ∃ rep,
    analyze_serp_similarity no_bracket_check reversed_A disjoint_B = inr rep
    ∧ common_domains rep = ∅ ∧ common_urls rep = ∅
    ∧ (domain_similarity rep == 0)%Q ∧ (url_similarity rep == 0)%Q
    ∧ position_differences rep = ∅
    ∧ avg_position_diff rep = Finite 0
    ∧ position_changes rep = ∅.
Proof.
  apply (X6_nothing_shared no_bracket_check reversed_A disjoint_B).
  - left. by vm_compute.
  - intros x y Hx Hy.
    assert (Forall (λ x, Forall (λ y, get_domain no_bracket_check (link x)
                                      ≠ get_domain no_bracket_check (link y))
                           (organic disjoint_B))
              (organic reversed_A)) as Hall
      by (apply (bool_decide_unpack _); by vm_compute).
    rewrite Forall_forall in Hall. specialize (Hall x Hx).
    rewrite Forall_forall in Hall. exact (Hall y Hy).
Defined.

Lemma X7_full_and_zero_similarity_witness :
  ((domain_similarity reversed_report == 100)%Q
   ↔ dom (domains1 reversed_report) = dom (domains2 reversed_report))
  ∧ ((domain_similarity reversed_report == 0)%Q
     ↔ common_domains reversed_report = ∅)
  ∧ ((url_similarity reversed_report == 100)%Q
     ↔ ∀ u, (∃ x, x ∈ organic reversed_A ∧ link x = u)
            ↔ (∃ y, y ∈ organic reversed_B ∧ link y = u))
  ∧ ((url_similarity reversed_report == 0)%Q
     ↔ common_urls reversed_report = ∅).
Proof.
  apply (X7_full_and_zero_similarity no_bracket_check reversed_A reversed_B).
  exact reversed_report_eq.
Defined.

Lemma X8_common_url_common_domain_witness :
  get_domain no_bracket_check "https://a.com/1" ∈ common_domains scenario_report.
Proof.
  apply (X8_common_url_common_domain no_bracket_check scenario_A scenario_B);
    [exact scenario_report_eq|by vm_compute].
Defined.

Lemma X9_positions_in_range_witness :
  (∀ d p, domains1 reversed_report !! d = Some p →
          (1 ≤ p ≤ total_results1 reversed_report)%Z)
  ∧ (∀ d p, domains2 reversed_report !! d = Some p →
            (1 ≤ p ≤ total_results2 reversed_report)%Z)
  ∧ (∀ d v, position_differences reversed_report !! d = Some v →
            (0 ≤ v ≤ Z.max (total_results1 reversed_report)
                       (total_results2 reversed_report) - 1)%Z).
Proof.
  apply (X9_positions_in_range no_bracket_check reversed_A reversed_B).
  exact reversed_report_eq.
Defined.

Lemma X10_key_counts_witness :
  (len (domains1 reversed_report) ≤ len (url_index (organic reversed_A)))%Z
  ∧ (len (url_index (organic reversed_A)) ≤ total_results1 reversed_report)%Z
  ∧ (len (domains2 reversed_report) ≤ len (url_index (organic reversed_B)))%Z
  ∧ (len (url_index (organic reversed_B)) ≤ total_results2 reversed_report)%Z
  ∧ (len (common_domains reversed_report)
     ≤ Z.min (total_results1 reversed_report)
             (total_results2 reversed_report))%Z.
Proof.
  apply (X10_key_counts no_bracket_check reversed_A reversed_B).
  exact reversed_report_eq.
Defined.

Lemma X11_short_lists_no_change_witness :
  position_changes scenario_report = ∅.
Proof.
  apply (X11_short_lists_no_change no_bracket_check scenario_A scenario_B);
    [exact scenario_report_eq|by vm_compute..].
Defined.

Lemma X12_swap_keeps_metrics_witness :
  ∃ rep',
    analyze_serp_similarity no_bracket_check reversed_B reversed_A = inr rep'
    ∧ domain_similarity rep' = domain_similarity reversed_report
    ∧ url_similarity rep' = url_similarity reversed_report
    ∧ position_differences rep' = position_differences reversed_report
    ∧ avg_position_diff rep' = avg_position_diff reversed_report
    ∧ domains1 rep' = domains2 reversed_report
    ∧ domains2 rep' = domains1 reversed_report
    ∧ total_results1 rep' = total_results2 reversed_report
    ∧ total_results2 rep' = total_results1 reversed_report.
Proof.
  apply (X12_swap_keeps_metrics no_bracket_check reversed_A reversed_B).
  exact reversed_report_eq.
Defined.

Lemma X13_changes_within_differences_witness :
  dom (position_differences reversed_report) = common_domains reversed_report
  ∧ (∀ d c, position_changes reversed_report !! d = Some c →
            position_differences reversed_report !! d = Some (Z.abs (diff c))
            ∧ (3 ≤ Z.abs (diff c))%Z)
  ∧ (∀ d v, position_differences reversed_report !! d = Some v →
            (v > 2)%Z ↔ is_Some (position_changes reversed_report !! d)).
Proof.
  apply (X13_changes_within_differences no_bracket_check reversed_A reversed_B).
  exact reversed_report_eq.
Defined.

Lemma X14_average_bounds_witness :
  ∃ q, avg_position_diff reversed_report = Finite q
       ∧ (0 <= q)%Q
       ∧ (q <= inject_Z (Z.max (total_results1 reversed_report)
                               (total_results2 reversed_report) - 1))%Q.
Proof.
  apply (X14_average_bounds no_bracket_check reversed_A reversed_B).
  exact reversed_report_eq.
Defined.

Lemma X15_distinct_domains_keep_rank_witness :
  domain_index no_bracket_check (organic reversed_A)
    !! get_domain no_bracket_check (link (result_of_url "https://c.com/"))
  = Some (Z.of_nat 2 + 1)%Z
  ∧ url_index (organic reversed_A) !! link (result_of_url "https://c.com/")
    = Some (Z.of_nat 2 + 1)%Z.
Proof.
  apply (X15_distinct_domains_keep_rank no_bracket_check
           (organic reversed_A) 2 (result_of_url "https://c.com/")).
  - apply (bool_decide_unpack _). by vm_compute.
  - by vm_compute.
Defined.

Lemma X16_status_marks_common_domains_witness :
  (Status reversed_row = "Common"
   ↔ Domain reversed_row ∈ common_domains reversed_report)
  ∧ (Status reversed_row = "Unique"
     ↔ Domain reversed_row ∉ common_domains reversed_report)
  ∧ (results_style reversed_row = replicate 6 "background-color: #dcfce7"
     ↔ Domain reversed_row ∈ common_domains reversed_report)
  ∧ (results_style reversed_row = replicate 6 ""
     ↔ Domain reversed_row ∉ common_domains reversed_report).
Proof.
  apply (X16_status_marks_common_domains no_bracket_check
           reversed_A reversed_B reversed_report reversed_report_eq).
  left. apply (list_elem_of_lookup_2 _ 0%nat). by vm_compute.
Defined.

Lemma X17_snippet_column_witness :
  (String.length (Snippet detailed_row) ≤ 153)%nat
  ∧ (Snippet detailed_row = ""
     ↔ snippet detailed_result = None ∨ snippet detailed_result = Some "")
  ∧ (∀ s, snippet detailed_result = Some s → s ≠ "" →
          Snippet detailed_row = Str.take 150 s ++ "..."
          ∧ String.length (Snippet detailed_row)
            = (Nat.min 150 (String.length s) + 3)%nat).
Proof.
  apply (X17_snippet_column no_bracket_check detailed_A ∅ 0
           detailed_row detailed_result); by vm_compute.
Defined.

Lemma X18_row_number_and_index_position_witness :
  Z.of_nat (length (process_results no_bracket_check repeated_A ∅))
  = total_results1 repeated_report
  ∧ ∀ i row,
      process_results no_bracket_check repeated_A ∅ !! i = Some row →
      Position row = (Z.of_nat i + 1)%Z
      ∧ ∃ q, domains1 repeated_report !! Domain row = Some q
             ∧ (Position row ≤ q ≤ total_results1 repeated_report)%Z
             ∧ (Position row = q
                ↔ ∀ j row', (i < j)%nat →
                    process_results no_bracket_check repeated_A ∅ !! j
                    = Some row' →
                    Domain row' ≠ Domain row).
Proof.
  apply (X18_row_number_and_index_position no_bracket_check
           repeated_A repeated_B repeated_report ∅).
  by vm_compute.
Defined.

Lemma X19_change_direction_witness :
  (3 ≤ Z.abs (Change (change_row "a.com" reversed_change)))%Z
  ∧ Change (change_row "a.com" reversed_change)
    = (Position_in_Query_2 (change_row "a.com" reversed_change)
       - Position_in_Query_1 (change_row "a.com" reversed_change))%Z
  ∧ (changes_style (change_row "a.com" reversed_change)
     = replicate 4 "background-color: #fef9c3"
     ↔ (pos1 reversed_change < pos2 reversed_change)%Z)
  ∧ (changes_style (change_row "a.com" reversed_change)
     = replicate 4 "background-color: #fee2e2"
     ↔ (pos2 reversed_change < pos1 reversed_change)%Z).
Proof.
  apply (X19_change_direction no_bracket_check reversed_A reversed_B
           reversed_report "a.com" reversed_change);
    [exact reversed_report_eq|by vm_compute].
Defined.

Lemma X20_zero_division_iff_witness :
  analyze_serp_similarity no_bracket_check ∅ {[ "organic" := [] ]}
  = inl ZeroDivisionError.
Proof.
  destruct (X20_zero_division_iff no_bracket_check ∅ {[ "organic" := [] ]})
    as [Hraise _].
  apply Hraise. split; by vm_compute.
Defined.

Lemma X21_url_similarity_implies_domain_similarity_witness :
  ((url_similarity reversed_report == 100)%Q
   → (domain_similarity reversed_report == 100)%Q)
  ∧ (¬ (url_similarity reversed_report == 0)%Q
     → ¬ (domain_similarity reversed_report == 0)%Q).
Proof.
  apply (X21_url_similarity_implies_domain_similarity no_bracket_check
           reversed_A reversed_B).
  exact reversed_report_eq.
Defined.
